(** * Evidence matching and deviation classification

    A shallow embedding of the decision logic of the video-analysis agent:
    [src/tools/step_matcher.py] (similarity scorer, step matcher, batch
    driver, deviation classifier), the phrase extractors and
    [build_action_timeline] of [src/tools/action_detector.py], the reports
    of [src/tools/report_generator.py] and [merge_video_timelines] of
    [src/tools/video_analyzer.py].

    Modelling conventions.
    - Python [str] is [string]; the text is taken to be ASCII, so that
      [str.lower] only moves [A-Z] to [a-z] and the regular-expression
      classes [\w] and [\s] are the ASCII ones.
    - Python [float] scores are exact rationals ([Q]): a score is
      [0.6 * a/b + 0.4 * c/d] for small naturals, and every comparison the
      code makes ([>], [>=], [<], [== 0.0]) is read on the rational value.
    - A duck-typed [dict] used as a record is a [Record] whose fields are
      [option]s: [None] is an absent key, and [d.get(k, default)] is
      [default] on [None].
    - Python sets of strings are [gset string].
    - A call either returns a value or raises: [outcome]. *)

From Stdlib Require Import QArith Ascii String List Lia Lqa Sorted Permutation.
From stdpp Require Import base option list gmap fin_sets strings pretty.
Import ListNotations.

Local Open Scope string_scope.
Local Open Scope Q_scope.
Local Open Scope list_scope.

(** ** Outcomes of a Python call *)

Inductive outcome (A : Type) : Type :=
  | Returned (a : A)
  | Raised (exception : string).
Arguments Returned {A} a.
Arguments Raised {A} exception.

#[global] Instance outcome_ret : MRet outcome := fun _ a => Returned a.
#[global] Instance outcome_bind : MBind outcome := fun _ _ f m =>
  match m with
  | Returned a => f a
  | Raised e => Raised e
  end.

(** [for x in l: s = body(s, x)], stopping at the first exception. *)
Fixpoint for_each {A S : Type} (body : S -> A -> outcome S) (l : list A) (s : S)
  : outcome S :=
  match l with
  | [] => Returned s
  | x :: l' => s' ← body s x; for_each body l' s'
  end.

(** [a / b] on the integers [len(...)] returns: true division. *)
Definition truediv (a b : nat) : outcome Q :=
  match b with
  | O => Raised "ZeroDivisionError"
  | S _ => Returned (Z.of_nat a # Pos.of_nat b)
  end.

(** ** Strings *)

Module Str.

Definition code (c : ascii) : nat := nat_of_ascii c.

Definition is_upper (c : ascii) : bool := (65 <=? code c)%nat && (code c <=? 90)%nat.
Definition is_lower (c : ascii) : bool := (97 <=? code c)%nat && (code c <=? 122)%nat.
Definition is_digit (c : ascii) : bool := (48 <=? code c)%nat && (code c <=? 57)%nat.

(** [\w] *)
Definition is_word (c : ascii) : bool :=
  is_upper c || is_lower c || is_digit c || (code c =? 95)%nat.

(** [\s]: tab, newline, vertical tab, form feed, carriage return, the four
    separators 28-31, and the space. *)
Definition is_space (c : ascii) : bool :=
  ((9 <=? code c)%nat && (code c <=? 13)%nat)
  || ((28 <=? code c)%nat && (code c <=? 32)%nat).

Definition lower_char (c : ascii) : ascii :=
  if is_upper c then ascii_of_nat (code c + 32) else c.

(** [s.lower()] *)
Fixpoint lower (s : string) : string :=
  match s with
  | EmptyString => EmptyString
  | String c s' => String (lower_char c) (lower s')
  end.

(** [w in s] *)
Fixpoint contains (s w : string) : bool :=
  String.prefix w s
  || match s with
     | EmptyString => false
     | String _ s' => contains s' w
     end.

(** [s.split()]: the maximal runs of non-whitespace characters. *)
Fixpoint split_from (cur : string) (s : string) : list string :=
  match s with
  | EmptyString => if String.eqb cur "" then [] else [cur]
  | String c s' =>
      if is_space c
      then (if String.eqb cur "" then [] else [cur]) ++ split_from "" s'
      else split_from (cur +:+ String c "") s'
  end.
Definition split (s : string) : list string := split_from "" s.

End Str.

(** ** The two regular expressions of [extract_objects] *)

Module Re.
Import Str.

Definition is_quote (c : ascii) : bool := (code c =? 34)%nat.

(** The first [re.findall] of [extract_objects], whose pattern is a
    double quote, a captured run of characters other than the double
    quote, and a double quote.  It yields the texts between an opening
    quote and the next quote; scanning resumes after the closing quote,
    and an opening quote with no closing one matches nothing.  [inside]
    is the text read since the pending opening quote, if there is one. *)
Fixpoint findall_quoted_from (inside : option string) (s : string) : list string :=
  match s with
  | EmptyString => []
  | String c s' =>
      match inside with
      | None =>
          if is_quote c then findall_quoted_from (Some "") s'
          else findall_quoted_from None s'
      | Some q =>
          if is_quote c then q :: findall_quoted_from None s'
          else findall_quoted_from (Some (q +:+ String c "")) s'
      end
  end.
Definition findall_quoted (text : string) : list string :=
  findall_quoted_from None text.

(** The longest prefix of characters satisfying [p], and what follows. *)
Fixpoint span (p : ascii -> bool) (s : string) : string * string :=
  match s with
  | EmptyString => ("", "")
  | String c s' =>
      if p c then let '(a, r) := span p s' in (String c a, r)
      else ("", s)
  end.

(** [[A-Z][a-z]+] at the head of [s].  The run of lower-case letters is
    taken whole: what follows in the pattern is [\s] or [\b], and neither
    matches in front of a lower-case letter. *)
Definition match_word (s : string) : option (string * string) :=
  match s with
  | EmptyString => None
  | String c s' =>
      if is_upper c then
        let '(w, r) := span is_lower s' in
        if String.eqb w "" then None else Some (String c w, r)
      else None
  end.

(** [\b] after a word character: the end of the text or a non-word
    character. *)
Definition boundary_after_word (s : string) : bool :=
  match s with
  | EmptyString => true
  | String c _ => negb (is_word c)
  end.

(** [(?:\s+[A-Z][a-z]+)*\b] at the head of [s], after a word: greedy, one
    more repetition first, and zero repetitions when that fails.  Each
    repetition reads at least two characters, so [fuel] above the length
    of [s] is never exhausted. *)
Fixpoint match_more (fuel : nat) (s : string) : option (string * string) :=
  let stop := if boundary_after_word s then Some ("", s) else None in
  match fuel with
  | O => stop
  | S fuel' =>
      let '(ws, r1) := span is_space s in
      if String.eqb ws "" then stop
      else match match_word r1 with
           | None => stop
           | Some (w, r2) =>
               match match_more fuel' r2 with
               | Some (t, r3) => Some (ws +:+ w +:+ t, r3)
               | None => stop
               end
           end
  end.

(** [[A-Z][a-z]+(?:\s+[A-Z][a-z]+)*\b] at the head of [s]: the matched
    text. *)
Definition match_capitalized (s : string) : option string :=
  match match_word s with
  | None => None
  | Some (w, r) =>
      match match_more (String.length r) r with
      | Some (t, _) => Some (w +:+ t)
      | None => None
      end
  end.

(** [re.findall(r'\b[A-Z][a-z]+(?:\s+[A-Z][a-z]+)*\b', text)].  [prev] is
    the character before the head of [s]; the leading [\b] stands before
    an upper-case letter, so it asks for the start of the text or a
    non-word character there.  [skip] counts the characters of the last
    match that are still to be stepped over. *)
Fixpoint findall_capitalized_from (prev : option ascii) (skip : nat) (s : string)
  : list string :=
  match s with
  | EmptyString => []
  | String c s' =>
      match skip with
      | S k => findall_capitalized_from (Some c) k s'
      | O =>
          let at_boundary :=
            match prev with None => true | Some p => negb (is_word p) end in
          match (if at_boundary then match_capitalized s else None) with
          | Some m => m :: findall_capitalized_from (Some c) (String.length m - 1) s'
          | None => findall_capitalized_from (Some c) 0 s'
          end
      end
  end.
Definition findall_capitalized (text : string) : list string :=
  findall_capitalized_from None 0 text.

End Re.

(** ** Similarity scorer: [semantic_match] and [extract_objects] *)

Module Vocabulary.
Definition action_words : list string :=
  ["click"; "enter"; "type"; "select"; "navigate"; "filter"; "search"; "submit"; "open"].

Definition ui_elements : list string :=
  ["search"; "icon"; "button"; "input"; "field"; "filter"; "menu"; "link"; "bar"].
End Vocabulary.

(** [[x for x in words if x in text]] *)
Definition words_in (words : list string) (text : string) : list string :=
  List.filter (fun word => Str.contains text word) words.

Definition extract_objects (text : string) : list string :=
  let text_lower := Str.lower text in
  let objects := words_in Vocabulary.ui_elements text_lower in
  let quoted := Re.findall_quoted text in
  let objects := objects ++ map Str.lower quoted in
  let capitalized := Re.findall_capitalized text in
  objects ++ map Str.lower capitalized.

(** [set(l)] *)
Definition set (l : list string) : gset string := list_to_set l.

Definition semantic_match (planned_action observed_action : string) : outcome Q :=
  let planned_lower := Str.lower planned_action in
  let observed_lower := Str.lower observed_action in
  let planned_actions := words_in Vocabulary.action_words planned_lower in
  let observed_actions := words_in Vocabulary.action_words observed_lower in
  let planned_objects := extract_objects planned_action in
  let observed_objects := extract_objects observed_action in
  action_match ←
    truediv (size (set planned_actions ∩ set observed_actions))
            (Nat.max (size (set planned_actions ∪ set observed_actions)) 1);
  object_match ←
    truediv (size (set planned_objects ∩ set observed_objects))
            (Nat.max (size (set planned_objects ∪ set observed_objects)) 1);
  let similarity := action_match * (6 # 10) + object_match * (4 # 10) in
  mret similarity.

(** ** Records of the matcher *)

(** Comparisons of scores, as the code writes them. *)
Module Float.
Definition geb (x y : Q) : bool := Qle_bool y x.
Definition gtb (x y : Q) : bool := negb (Qle_bool x y).
Definition ltb (x y : Q) : bool := negb (Qle_bool y x).
Definition eqb (x y : Q) : bool := Qeq_bool x y.
End Float.

(** A planned step: the keys [next_step_summary] and [next_step]. *)
Module Step.
Record t : Type := make {
  next_step_summary : option string;
  next_step : option string }.
End Step.

(** An entry of the timeline, as [build_action_timeline] writes it. *)
Module Item.
Record t : Type := make {
  timestamp : option Q;
  timestamp_formatted : option string;
  actions : option (list string);
  ui_elements : option (list string);
  text_content : option (list string);
  description : option string;
  frame_number : option Z }.
End Item.

(** An analysed frame, the input of [build_action_timeline]; [analysis] is
    the nested dict, of which only the key [description] is read. *)
Module Frame.
Record t : Type := make {
  timestamp : option Q;
  timestamp_formatted : option string;
  detected_actions : option (list string);
  ui_elements : option (list string);
  text_content : option (list string);
  analysis : option (option string);
  frame_number : option Z }.
End Frame.

(** The dict stored under [best_match] and in [all_matches]. *)
Module Candidate.
Record t : Type := make {
  timeline_item : Item.t;
  observed_action : string;
  score : Q;
  timestamp : Q;
  timestamp_formatted : string }.
End Candidate.

(** The dict returned by [match_step_with_timeline]. *)
Module Result.
Record t : Type := make {
  planned_step : Step.t;
  planned_action : string;
  best_match : option Candidate.t;
  best_score : Q;
  all_matches : list Candidate.t;
  is_matched : bool;
  result : string }.
End Result.

(** [d.get(key, fallback)] *)
Definition get {A : Type} (field : option A) (fallback : A) : A :=
  match field with
  | Some v => v
  | None => fallback
  end.

(** ** Step matcher: [match_step_with_timeline] *)

(** The local variables [best_match], [best_score] and [matches]. *)
Record locals : Type := Locals {
  best_match : option Candidate.t;
  best_score : Q;
  matches : list Candidate.t }.

Definition candidate (timeline_item : Item.t) (phrase : string) (score : Q) : Candidate.t :=
  {| Candidate.timeline_item := timeline_item;
     Candidate.observed_action := phrase;
     Candidate.score := score;
     Candidate.timestamp := get (Item.timestamp timeline_item) 0;
     Candidate.timestamp_formatted := get (Item.timestamp_formatted timeline_item) "00:00" |}.

(** Body of [for observed_action in timeline_item.get("actions", [])]. *)
Definition check_action (planned_action : string) (threshold : Q)
    (timeline_item : Item.t) (l : locals) (observed_action : string) : outcome locals :=
  score ← semantic_match planned_action observed_action;
  let l :=
    if Float.gtb score (best_score l)
    then {| best_score := score;
            best_match := Some (candidate timeline_item observed_action score);
            matches := matches l |}
    else l in
  let l :=
    if Float.geb score threshold
    then {| best_score := best_score l;
            best_match := best_match l;
            matches := matches l ++ [candidate timeline_item observed_action score] |}
    else l in
  mret l.

(** Body of [for element in ui_elements + text_content]. *)
Definition check_element (planned_action : string)
    (timeline_item : Item.t) (l : locals) (element : string) : outcome locals :=
  score ← semantic_match planned_action element;
  let l :=
    if Float.gtb score (best_score l)
    then {| best_score := score;
            best_match := Some (candidate timeline_item element score);
            matches := matches l |}
    else l in
  mret l.

(** Body of [for timeline_item in timeline]. *)
Definition check_item (planned_action : string) (threshold : Q)
    (l : locals) (timeline_item : Item.t) : outcome locals :=
  l ← for_each (check_action planned_action threshold timeline_item)
        (get (Item.actions timeline_item) []) l;
  let ui_elements := get (Item.ui_elements timeline_item) [] in
  let text_content := get (Item.text_content timeline_item) [] in
  for_each (check_element planned_action timeline_item) (ui_elements ++ text_content) l.

(** [planned_step.get("next_step_summary", "") or planned_step.get("next_step", "")] *)
Definition planned_action_of (planned_step : Step.t) : string :=
  let summary := get (Step.next_step_summary planned_step) "" in
  if String.eqb summary "" then get (Step.next_step planned_step) "" else summary.

Definition match_step_with_timeline (planned_step : Step.t) (timeline : list Item.t)
    (threshold : Q) : outcome Result.t :=
  let planned_action := planned_action_of planned_step in
  let l := {| best_match := None; best_score := 0; matches := [] |} in
  l ← for_each (check_item planned_action threshold) timeline l;
  mret {| Result.planned_step := planned_step;
          Result.planned_action := planned_action;
          Result.best_match := best_match l;
          Result.best_score := best_score l;
          Result.all_matches := matches l;
          Result.is_matched := Float.geb (best_score l) threshold;
          Result.result := if Float.geb (best_score l) threshold then "observed" else "deviation" |}.

(** The default value of the parameter [threshold]. *)
Definition default_threshold : Q := 5 # 10.

(** ** Batch driver: [match_all_steps] *)

(** Body of [for step in planned_steps]. *)
Definition append_match (timeline : list Item.t) (threshold : Q)
    (results : list Result.t) (step : Step.t) : outcome (list Result.t) :=
  match_result ← match_step_with_timeline step timeline threshold;
  mret (results ++ [match_result]).

Definition match_all_steps (planned_steps : list Step.t) (timeline : list Item.t)
    (threshold : Q) : outcome (list Result.t) :=
  let results := [] in
  for_each (append_match timeline threshold) planned_steps results.

(** ** Deviation classifier: [categorize_deviation] *)

Definition categorize_deviation (match_result : Result.t) : string :=
  if Result.is_matched match_result then "observed"
  else
    let best_score := Result.best_score match_result in
    if Float.eqb best_score 0 then "skipped"
    else if Float.ltb best_score (3 # 10) then "not_visible"
    else "altered".

(** ** Timeline builder: [build_action_timeline] *)

(** Truth value of a list: non-empty. *)
Definition truthy {A : Type} (l : list A) : bool :=
  match l with
  | [] => false
  | _ :: _ => true
  end.

(** Body of [for frame_data in analyzed_frames]. *)
Definition append_frame (timeline : list Item.t) (frame_data : Frame.t)
  : outcome (list Item.t) :=
  let timestamp := get (Frame.timestamp frame_data) 0 in
  let timestamp_formatted := get (Frame.timestamp_formatted frame_data) "00:00" in
  let actions := get (Frame.detected_actions frame_data) [] in
  let ui_elements := get (Frame.ui_elements frame_data) [] in
  let text_content := get (Frame.text_content frame_data) [] in
  let description := get (get (Frame.analysis frame_data) None) "" in
  if truthy actions || truthy ui_elements || truthy text_content
  then mret (timeline ++
               [ {| Item.timestamp := Some timestamp;
                    Item.timestamp_formatted := Some timestamp_formatted;
                    Item.actions := Some actions;
                    Item.ui_elements := Some ui_elements;
                    Item.text_content := Some text_content;
                    Item.description := Some description;
                    Item.frame_number := Some (get (Frame.frame_number frame_data) 0%Z) |} ])
  else mret timeline.

Definition build_action_timeline (analyzed_frames : list Frame.t) : outcome (list Item.t) :=
  let timeline := [] in
  for_each append_frame analyzed_frames timeline.

(** ** Phrase extraction: [extract_ui_elements], [extract_actions],
    [extract_text_content] *)

Module Keywords.
Definition ui_keywords : list string :=
  ["button"; "input"; "field"; "icon"; "link"; "menu"; "dropdown"; "filter"; "search"; "form"].

Definition action_keywords : list string :=
  ["click"; "enter"; "type"; "select"; "navigate"; "filter"; "search"; "submit"; "open";
   "close"].
End Keywords.

(** [l.index(x)]: the first position of [x], or a [ValueError]. *)
Fixpoint index (x : string) (l : list string) : outcome nat :=
  match l with
  | [] => Raised "ValueError"
  | y :: l' => if String.eqb y x then Returned O else (i ← index x l'; mret (S i))
  end.

(** [l[lo:hi]] for [0 <= lo]; both ends are clipped to the list. *)
Definition slice {A : Type} (l : list A) (lo hi : nat) : list A :=
  firstn (hi - lo) (skipn lo l).

(** [sep.join(l)] *)
Fixpoint join (sep : string) (l : list string) : string :=
  match l with
  | [] => ""
  | [x] => x
  | x :: l' => x +:+ sep +:+ join sep l'
  end.

(** [max(0, idx - back)] on the integers, as a position. *)
Definition clip_start (idx : nat) (back : Z) : nat :=
  Z.to_nat (Z.max 0 (Z.of_nat idx - back)).

(** Body of [for keyword in ui_keywords]. *)
Definition check_ui_keyword (words : list string) (elements : list string)
    (keyword : string) : outcome (list string) :=
  if bool_decide (keyword ∈ words) then
    idx ← index keyword words;
    if (0 <? idx)%nat then
      let phrase := join " " (slice words (clip_start idx 2) (idx + 2)) in
      mret (elements ++ [phrase])
    else mret elements
  else mret elements.

Definition extract_ui_elements (description : string) : outcome (list string) :=
  let elements := [] in
  let words := Str.split (Str.lower description) in
  for_each (check_ui_keyword words) Keywords.ui_keywords elements.

(** Body of [for keyword in action_keywords]. *)
Definition check_action_keyword (words : list string) (actions : list string)
    (keyword : string) : outcome (list string) :=
  if bool_decide (keyword ∈ words) then
    idx ← index keyword words;
    if (0 <? idx)%nat then
      let phrase := join " " (slice words (clip_start idx 1) (idx + 3)) in
      mret (actions ++ [phrase])
    else mret actions
  else mret actions.

Definition extract_actions (description : string) : outcome (list string) :=
  let actions := [] in
  let words := Str.split (Str.lower description) in
  for_each (check_action_keyword words) Keywords.action_keywords actions.

Definition extract_text_content (description : string) : list string :=
  let quoted := Re.findall_quoted description in
  let capitalized := Re.findall_capitalized description in
  quoted ++ capitalized.

(** ** Report: [categorize_deviation_type], [generate_markdown_report],
    [generate_html_report], [generate_deviation_report]

    The match results handed to the report are results of the matcher, so
    every key the report reads with [get] is present and a best match, when
    there is one, is a non-empty dict.  The clock reading
    [datetime.now().strftime(...)] and the float format [:.2f] are
    parameters, [now] and [format_2f]. *)

(** The double quote, the delimiter of the quoted texts. *)
Definition double_quote : string := String (ascii_of_nat 34) EmptyString.

(** The line feed. *)
Definition newline : string := String (ascii_of_nat 10) EmptyString.

(** [s[:n]] *)
Definition upto (n : nat) (s : string) : string := String.substring 0 n s.

(** [s.replace(old, new)] for a one-character [old]. *)
Fixpoint replace (old : ascii) (new : string) (s : string) : string :=
  match s with
  | EmptyString => EmptyString
  | String c s' =>
      (if Ascii.eqb c old then new else String c EmptyString) +:+ replace old new s'
  end.

(** [enumerate(l, start)] *)
Fixpoint enumerate {A : Type} (l : list A) (start : nat) : list (nat * A) :=
  match l with
  | [] => []
  | x :: l' => (start, x) :: enumerate l' (S start)
  end.

Module TestOutput.
Record failure : Type := make_failure { message : option string }.
Record t : Type := make {
  test_outcome : option string;
  failures : option (list failure) }.
End TestOutput.

Definition categorize_deviation_type (match_result : Result.t) : string :=
  if Result.is_matched match_result then "observed"
  else
    let best_score := Result.best_score match_result in
    if Float.eqb best_score 0 then "skipped"
    else if Float.ltb best_score (3 # 10) then "not_visible"
    else "altered".

(** [sum(1 for r in match_results if r.get("result") == "observed")] *)
Definition observed_count (match_results : list Result.t) : nat :=
  length (List.filter (fun r => String.eqb (Result.result r) "observed") match_results).

(** [[r for r in match_results if r.get("result") != "observed"]] *)
Definition deviations (match_results : list Result.t) : list Result.t :=
  List.filter (fun r => negb (String.eqb (Result.result r) "observed")) match_results.

Section Report.
Variable now : string.
Variable format_2f : Q -> string.

(** The block [# Get notes], the same in both reports. *)
Definition notes_of (result : Result.t) : string :=
  let notes := "-" in
  if negb (Result.is_matched result) then
    match Result.best_match result with
    | Some best_match =>
        "Partial match (score: " +:+ format_2f (Candidate.score best_match) +:+ ")"
    | None =>
        let deviation_type := categorize_deviation_type result in
        "Step " +:+ deviation_type +:+ " in video"
    end
  else
    match Result.best_match result with
    | Some best_match =>
        let timestamp := Candidate.timestamp_formatted best_match in
        if String.eqb timestamp "" then notes else "Observed at " +:+ timestamp
    | None => notes
    end.

(** The block [# Truncate long descriptions]. *)
Definition truncated (planned_action : string) : string :=
  if (60 <? String.length planned_action)%nat
  then upto 57 planned_action +:+ "..."
  else planned_action.

(** Body of the table loop of [generate_markdown_report]. *)
Definition markdown_row (result : Result.t) : string :=
  let planned_action := Result.planned_action result in
  let match_status := Result.result result in
  let result_symbol :=
    if String.eqb match_status "observed" then "☑ Observed" else "✗ Deviation" in
  let notes := notes_of result in
  let planned_action := truncated planned_action in
  "| " +:+ planned_action +:+ " | " +:+ result_symbol +:+ " | " +:+ notes +:+ " |".

(** Body of the loop over [deviations]. *)
Definition deviation_detail (entry : nat * Result.t) : list string :=
  let '(i, deviation) := entry in
  let planned_action := Result.planned_action deviation in
  let deviation_type := categorize_deviation_type deviation in
  ["### Deviation " +:+ pretty i +:+ ": " +:+ deviation_type;
   "";
   "**Planned Action:** " +:+ planned_action;
   ""]
  ++ match Result.best_match deviation with
     | Some best_match =>
         ["**Closest Match:** " +:+ Candidate.observed_action best_match;
          "**Similarity Score:** " +:+ format_2f (Candidate.score best_match)]
     | None => []
     end
  ++ [""].

(** The block [# Test output cross-reference]. *)
Definition cross_reference (test_output : option TestOutput.t) : list string :=
  match test_output with
  | None => []
  | Some test_output =>
      ["## Test Output Cross-Reference";
       "";
       "- **Test Outcome:** " +:+ get (TestOutput.test_outcome test_output) "unknown"]
      ++ (let failures := get (TestOutput.failures test_output) [] in
          if truthy failures then
            ("- **Failures:** " +:+ pretty (length failures))
            :: map (fun failure =>
                      "  - " +:+ upto 100 (get (TestOutput.message failure) ""))
                 failures
          else [])
      ++ [""]
  end.

Definition generate_markdown_report (match_results : list Result.t)
    (test_output : option TestOutput.t) : string :=
  let total_steps := length match_results in
  let observed_count := observed_count match_results in
  let deviation_count := (total_steps - observed_count)%nat in
  let deviations := deviations match_results in
  let report_lines :=
    ["# Deviation Report"; ""; "Generated: " +:+ now; "";
     "## Summary"; "";
     "- **Total Steps:** " +:+ pretty total_steps;
     "- **Observed:** " +:+ pretty observed_count;
     "- **Deviations:** " +:+ pretty deviation_count;
     ""]
    ++ cross_reference test_output
    ++ ["## Detailed Results"; "";
        "| Step Description | Result | Notes |";
        "|------------------|--------|-------|"]
    ++ map markdown_row match_results
    ++ [""]
    ++ (if truthy deviations
        then ["## Deviations Detail"; ""]
             ++ flat_map deviation_detail (enumerate deviations 1)
        else []) in
  join newline report_lines.

(** The block [# Escape HTML]. *)
Definition escape (text : string) : string :=
  replace ">" "&gt;" (replace "<" "&lt;" text).

(** Body of the table loop of [generate_html_report]. *)
Definition html_row (result : Result.t) : list string :=
  let planned_action := Result.planned_action result in
  let match_status := Result.result result in
  let '(result_symbol, result_class) :=
    if String.eqb match_status "observed"
    then ("☑ Observed", "observed")
    else ("✗ Deviation", "deviation") in
  let notes := notes_of result in
  let planned_action := escape planned_action in
  let notes := escape notes in
  ["<tr class='" +:+ result_class +:+ "'>";
   "<td>" +:+ planned_action +:+ "</td>";
   "<td>" +:+ result_symbol +:+ "</td>";
   "<td>" +:+ notes +:+ "</td>";
   "</tr>"].

Definition generate_html_report (match_results : list Result.t)
    (test_output : option TestOutput.t) : string :=
  let total_steps := length match_results in
  let observed_count := observed_count match_results in
  let deviation_count := (total_steps - observed_count)%nat in
  let html_lines :=
    ["<!DOCTYPE html>"; "<html>"; "<head>";
     "<meta charset=" +:+ double_quote +:+ "UTF-8" +:+ double_quote +:+ ">";
     "<title>Deviation Report</title>";
     "<style>";
     "body { font-family: Arial, sans-serif; margin: 20px; }";
     "table { border-collapse: collapse; width: 100%; margin: 20px 0; }";
     "th, td { border: 1px solid #ddd; padding: 8px; text-align: left; }";
     "th { background-color: #f2f2f2; }";
     ".observed { color: green; }";
     ".deviation { color: red; }";
     "</style>"; "</head>"; "<body>";
     "<h1>Deviation Report</h1>";
     "<p>Generated: " +:+ now +:+ "</p>";
     "<h2>Summary</h2>"; "<ul>";
     "<li><strong>Total Steps:</strong> " +:+ pretty total_steps +:+ "</li>";
     "<li><strong>Observed:</strong> " +:+ pretty observed_count +:+ "</li>";
     "<li><strong>Deviations:</strong> " +:+ pretty deviation_count +:+ "</li>";
     "</ul>";
     "<h2>Detailed Results</h2>"; "<table>";
     "<tr><th>Step Description</th><th>Result</th><th>Notes</th></tr>"]
    ++ flat_map html_row match_results
    ++ ["</table>"; "</body>"; "</html>"] in
  join newline html_lines.

Definition generate_deviation_report (match_results : list Result.t)
    (test_output : option TestOutput.t) (output_format : string) : string :=
  if String.eqb output_format "html"
  then generate_html_report match_results test_output
  else generate_markdown_report match_results test_output.

End Report.

(** ** Merging the frames of several videos: [merge_video_timelines]

    [video_frames] is a dict in insertion order, here the list of its
    items.  [list.sort] is stable and compares the keys with [<]; it is
    modelled by an insertion sort that puts an entry in front of the first
    sorted entry whose key is not smaller. *)

(** The pixels of a frame: rows of columns of channel values. *)
Definition ndarray : Type := list (list (list Z)).

(** A frame dict of the video analyser, with the key [source_video] the
    merge adds. *)
Module VideoFrame.
Record t : Type := make {
  frame_number : option Z;
  timestamp : option Q;
  timestamp_formatted : option string;
  frame : option ndarray;
  source_video : option string }.
End VideoFrame.

(** [{**frame, "source_video": video_path}] *)
Definition with_source (video_path : string) (frame : VideoFrame.t) : VideoFrame.t :=
  {| VideoFrame.frame_number := VideoFrame.frame_number frame;
     VideoFrame.timestamp := VideoFrame.timestamp frame;
     VideoFrame.timestamp_formatted := VideoFrame.timestamp_formatted frame;
     VideoFrame.frame := VideoFrame.frame frame;
     VideoFrame.source_video := Some video_path |}.

(** [lambda x: x["timestamp"]], paired with its argument. *)
Definition sort_key (keyed : list (Q * VideoFrame.t)) (x : VideoFrame.t)
  : outcome (list (Q * VideoFrame.t)) :=
  match VideoFrame.timestamp x with
  | Some timestamp => Returned (keyed ++ [(timestamp, x)])
  | None => Raised "KeyError"
  end.

Fixpoint insert_by_key (entry : Q * VideoFrame.t) (sorted : list (Q * VideoFrame.t))
  : list (Q * VideoFrame.t) :=
  match sorted with
  | [] => [entry]
  | other :: sorted' =>
      if Float.ltb (fst other) (fst entry)
      then other :: insert_by_key entry sorted'
      else entry :: sorted
  end.

(** [l.sort(key=...)] on the keyed entries. *)
Definition sort_by_key (keyed : list (Q * VideoFrame.t)) : list (Q * VideoFrame.t) :=
  fold_right insert_by_key [] keyed.

Definition merge_video_timelines (video_frames : list (string * list VideoFrame.t))
  : outcome (list VideoFrame.t) :=
  let unified_timeline :=
    flat_map (fun '(video_path, frames) => map (with_source video_path) frames)
      video_frames in
  keyed ← for_each sort_key unified_timeline [];
  mret (map snd (sort_by_key keyed)).

(** ** Specification-side definitions *)

(** [overlap(A,B) = |A ∩ B| / max(|A ∪ B|, 1)] *)
Definition overlap (A B : gset string) : Q :=
  Z.of_nat (size (A ∩ B)) # Pos.of_nat (Nat.max (size (A ∪ B)) 1).

(** [w] occurs in [s] as a run of consecutive characters. *)
Definition substring (w s : string) : Prop :=
  exists before after : string, s = before +:+ w +:+ after.

(** The action set the code compares: the vocabulary words found inside the
    lower-cased text. *)
Definition action_tokens (text : string) : gset string :=
  set (words_in Vocabulary.action_words (Str.lower text)).

Definition object_tokens (text : string) : gset string :=
  set (extract_objects text).

(** The value [semantic_match] returns (lemma [semantic_match_returns]). *)
Definition similarity (planned observed : string) : Q :=
  overlap (action_tokens planned) (action_tokens observed) * (6 # 10)
  + overlap (object_tokens planned) (object_tokens observed) * (4 # 10).



(** The phrases of one timeline entry, in the order the matcher reads them:
    the actions, then the UI elements followed by the text snippets. *)
Definition phrases (item : Item.t) : list string :=
  get (Item.actions item) []
  ++ (get (Item.ui_elements item) [] ++ get (Item.text_content item) []).

(** Every (entry, phrase) pair of a timeline, in scan order. *)
Definition scan_pairs (timeline : list Item.t) : list (Item.t * string) :=
  flat_map (fun item => map (pair item) (phrases item)) timeline.

(** The pairs whose phrase is an action phrase, in scan order. *)
Definition action_pairs (timeline : list Item.t) : list (Item.t * string) :=
  flat_map (fun item => map (pair item) (get (Item.actions item) [])) timeline.

(** One update of [(best_match, best_score)] by a scanned pair. *)
Definition track (planned_action : string) (best : option Candidate.t * Q)
    (p : Item.t * string) : option Candidate.t * Q :=
  let score := similarity planned_action (snd p) in
  if Float.gtb score (snd best)
  then (Some (candidate (fst p) (snd p) score), score)
  else best.

Definition best (l : locals) : option Candidate.t * Q := (best_match l, best_score l).

(** The candidates of the pairs that score at least [threshold]. *)
Definition above (planned_action : string) (threshold : Q)
    (pairs : list (Item.t * string)) : list Candidate.t :=
  map (fun p => candidate (fst p) (snd p) (similarity planned_action (snd p)))
    (List.filter (fun p => Float.geb (similarity planned_action (snd p)) threshold) pairs).

(** The two shapes of [(best_match, best_score)]: nothing recorded at score
    zero, or a candidate recorded at a positive score. *)
Definition recorded (b : option Candidate.t * Q) : Prop :=
  (fst b = None /\ snd b = 0) \/ (is_Some (fst b) /\ 0 < snd b).

(** A frame that [build_action_timeline] keeps: one of its three phrase
    lists is non-empty. *)
Definition has_evidence (frame : Frame.t) : bool :=
  truthy (get (Frame.detected_actions frame) [])
  || truthy (get (Frame.ui_elements frame) [])
  || truthy (get (Frame.text_content frame) []).

(** [item] is the timeline entry of [frame], each absent key read at its
    default: timestamp 0, formatted timestamp 00:00, empty phrase lists. *)
Definition entry_with_defaults (frame : Frame.t) (item : Item.t) : Prop :=
  Item.timestamp item = Some (default 0 (Frame.timestamp frame)) /\
  Item.timestamp_formatted item
    = Some (default "00:00" (Frame.timestamp_formatted frame)) /\
  Item.actions item = Some (default [] (Frame.detected_actions frame)) /\
  Item.ui_elements item = Some (default [] (Frame.ui_elements frame)) /\
  Item.text_content item = Some (default [] (Frame.text_content frame)).

(** Every character of [s] satisfies [p]. *)
Fixpoint all_chars (p : ascii -> bool) (s : string) : bool :=
  match s with
  | EmptyString => true
  | String c s' => p c && all_chars p s'
  end.

(** A word of a text: not empty, and free of whitespace. *)
Definition is_token (w : string) : Prop :=
  w <> "" /\ all_chars (fun c => negb (Str.is_space c)) w = true.

(** The first position of [x] in [l], if it occurs. *)
Fixpoint position (x : string) (l : list string) : option nat :=
  match l with
  | [] => None
  | y :: l' => if String.eqb y x then Some O else S <$> position x l'
  end.

(** The phrase the extractors build around the first occurrence of
    [keyword], when that is not the first word: [back] words before it, the
    keyword, and the words up to [fwd] positions after its own. *)
Definition keyword_phrase (back fwd : nat) (words : list string) (keyword : string)
  : list string :=
  match position keyword words with
  | Some (S i) => [join " " (slice words (S i - back) (S i + fwd))]
  | _ => []
  end.

(** A letter or a whitespace character. *)
Definition letter_or_space (c : ascii) : bool :=
  Str.is_upper c || Str.is_lower c || Str.is_space c.

(** The frames of all videos, each with its source, in the order the merge
    collects them. *)
Definition tagged_frames (video_frames : list (string * list VideoFrame.t))
  : list VideoFrame.t :=
  flat_map (fun '(video_path, frames) => map (with_source video_path) frames) video_frames.

(** Both frames have a timestamp and that of [a] is not later. *)
Definition not_later (a b : VideoFrame.t) : Prop :=
  exists ta tb : Q,
    VideoFrame.timestamp a = Some ta /\ VideoFrame.timestamp b = Some tb /\ ta <= tb.

(** The frame has the timestamp [t]. *)
Definition at_time (t : Q) (x : VideoFrame.t) : bool :=
  match VideoFrame.timestamp x with
  | Some t' => Qeq_bool t' t
  | None => false
  end.

(** ** Sample inputs *)

Module Sample.
(** The double-quote character, as a one-character text. *)
Definition quote_mark : string := String (ascii_of_nat 34) EmptyString.

(** A step whose only evidence is half of its action words. *)
Definition click_open_step : Step.t := Step.make (Some "click open") None.
Definition click_item : Item.t :=
  Item.make (Some 5) (Some "00:05") (Some ["click"]) (Some []) (Some []) (Some "") (Some 1%Z).

(** The same action phrase seen at 5s and at 12s. *)
Definition search_step : Step.t := Step.make (Some "click search icon") None.
Definition search_item_5 : Item.t :=
  Item.make (Some 5) (Some "00:05") (Some ["click search icon"]) (Some []) (Some [])
    (Some "") (Some 1%Z).

(** Two phrases that share nothing with the step. *)
Definition password_step : Step.t :=
  Step.make (Some "Enter password") (Some "Enter password into login field").

(** The phrase of the step, seen only among the UI elements. *)
Definition ui_only_item : Item.t :=
  Item.make (Some 5) (Some "00:05") (Some []) (Some ["click search icon"]) (Some [])
    (Some "") (Some 1%Z).

(** A frame with an action phrase and no key [timestamp]. *)
Definition untimed_frame : Frame.t :=
  Frame.make None None (Some ["click"]) None None None None.

(** Two videos: frames at 0s and 2s of the first, at 2s and 1s of the
    second. *)
Definition video_frame (number : Z) (seconds : Q) : VideoFrame.t :=
  VideoFrame.make (Some number) (Some seconds) (Some "00:00") (Some []) None.
Definition two_videos : list (string * list VideoFrame.t) :=
  [("a.mp4", [video_frame 0 0; video_frame 60 2]);
   ("b.mp4", [video_frame 50 2; video_frame 25 1])].
End Sample.

(** ** The scanners *)

Lemma span_length (p : ascii -> bool) (s a r : string) :
  Re.span p s = (a, r) -> String.length s = (String.length a + String.length r)%nat.
Proof.
  revert a r; induction s as [|c s IH]; intros a r H; simpl in H.
  - injection H as <- <-. reflexivity.
  - destruct (p c).
    + destruct (Re.span p s) as [a' r'] eqn:E. injection H as <- <-.
      simpl. rewrite (IH a' r' eq_refl). reflexivity.
    + injection H as <- <-. reflexivity.
Qed.

Lemma match_word_length (s w r : string) :
  Re.match_word s = Some (w, r) -> (String.length r < String.length s)%nat.
Proof.
  destruct s as [|c s]; simpl; [discriminate |].
  destruct (Str.is_upper c); [| discriminate].
  destruct (Re.span Str.is_lower s) as [a r'] eqn:E.
  destruct (String.eqb a ""); [discriminate |].
  intros H. injection H as <- <-.
  apply span_length in E. lia.
Qed.

(** The fuel of [match_more] is never the reason it stops. *)
Lemma match_more_fuel (fuel fuel' : nat) (s : string) :
  (String.length s <= fuel)%nat -> (String.length s <= fuel')%nat ->
  Re.match_more fuel s = Re.match_more fuel' s.
Proof.
  revert fuel' s; induction fuel as [|fuel IH]; intros fuel' s Hf Hf'.
  - destruct s; [| simpl in Hf; lia]. destruct fuel'; reflexivity.
  - destruct fuel' as [|fuel'].
    + destruct s; [reflexivity | simpl in Hf'; lia].
    + cbn [Re.match_more].
      destruct (Re.span Str.is_space s) as [ws r1] eqn:Ews.
      destruct (String.eqb ws "") eqn:Eempty; [reflexivity |].
      destruct (Re.match_word r1) as [[w r2] |] eqn:Ew; [| reflexivity].
      apply span_length in Ews. apply match_word_length in Ew.
      rewrite (IH fuel' r2) by lia. reflexivity.
Qed.

Example findall_capitalized_labels :
  Re.findall_capitalized "Click the Search icon on the Wrangler Homepage, then Foo_ Bar A Bc"
  = ["Click"; "Search"; "Wrangler Homepage"; "Bar"; "Bc"].
Proof. reflexivity. Qed.

Example findall_quoted_values :
  Re.findall_quoted
    ("type " +:+ Sample.quote_mark +:+ "Rainbow sweater" +:+ Sample.quote_mark
     +:+ " into " +:+ Sample.quote_mark +:+ "search")
  = ["Rainbow sweater"].
Proof. reflexivity. Qed.

Example extract_objects_search_icon :
  extract_objects "Click the Search icon" = ["search"; "icon"; "click"; "search"].
Proof. reflexivity. Qed.

(** ** The scorer *)

Lemma truediv_max (a b : nat) :
  truediv a (Nat.max b 1) = Returned (Z.of_nat a # Pos.of_nat (Nat.max b 1)).
Proof.
  destruct (Nat.max b 1) as [|n] eqn:E; [lia | reflexivity].
Qed.

Lemma semantic_match_returns (planned observed : string) :
  semantic_match planned observed = Returned (similarity planned observed).
Proof.
  unfold semantic_match, similarity, overlap, action_tokens, object_tokens.
  rewrite !truediv_max. reflexivity.
Qed.

Lemma overlap_bounds (A B : gset string) : 0 <= overlap A B /\ overlap A B <= 1.
Proof.
  unfold overlap, Qle; simpl.
  assert (size (A ∩ B) ≤ size (A ∪ B))%nat as Hsize.
  { apply subseteq_size. etrans; [apply intersection_subseteq_l | apply union_subseteq_l]. }
  split; [lia |].
  rewrite Z.mul_1_r, Z.mul_1_l.
  destruct (Nat.max (size (A ∪ B)) 1) as [|n] eqn:E; [lia |].
  rewrite <- E.
  assert (Z.pos (Pos.of_nat (Nat.max (size (A ∪ B)) 1))
          = Z.of_nat (Nat.max (size (A ∪ B)) 1)) as ->.
  { rewrite E. rewrite <- (Nat2Pos.id (S n)) at 2 by lia.
    symmetry. apply positive_nat_Z. }
  lia.
Qed.

Lemma overlap_comm (A B : gset string) : overlap A B = overlap B A.
Proof.
  unfold overlap.
  rewrite (comm_L (∩) A B), (comm_L (∪) A B). reflexivity.
Qed.

Lemma similarity_bounds (planned observed : string) :
  0 <= similarity planned observed /\ similarity planned observed <= 1.
Proof.
  unfold similarity.
  destruct (overlap_bounds (action_tokens planned) (action_tokens observed)) as [Ha0 Ha1].
  destruct (overlap_bounds (object_tokens planned) (object_tokens observed)) as [Ho0 Ho1].
  split; lra.
Qed.

Lemma prefix_spec (w s : string) :
  String.prefix w s = true <-> exists after : string, s = w +:+ after.
Proof.
  revert s; induction w as [|c w IH]; intros s.
  - split; [exists s; reflexivity | destruct s; reflexivity].
  - destruct s as [|d s]; simpl.
    + split; [discriminate | intros [after H]; discriminate H].
    + destruct (Ascii.ascii_dec c d) as [->|Hcd].
      * rewrite IH. split; intros [after H]; exists after.
        -- change (String d s = String d (w +:+ after)). congruence.
        -- change (String d s = String d (w +:+ after)) in H. congruence.
      * split; [discriminate |].
        intros [after H]. change (String d s = String c (w +:+ after)) in H.
        congruence.
Qed.

Lemma contains_spec (s w : string) :
  Str.contains s w = true <-> substring w s.
Proof.
  induction s as [|c s IH]; cbn [Str.contains].
  - rewrite orb_false_r, prefix_spec. split.
    + intros [after H]. exists "", after. exact H.
    + intros [[|b before] [after H]]; [exists after; exact H | discriminate H].
  - rewrite orb_true_iff, IH, prefix_spec. split.
    + intros [[after H] | [before [after H]]].
      * exists "", after. exact H.
      * exists (String c before), after. rewrite H. reflexivity.
    + intros [[|b before] [after H]].
      * left. exists after. exact H.
      * right. exists before, after.
        change (String c s = String b (before +:+ w +:+ after)) in H.
        congruence.
Qed.

Lemma action_tokens_spec (text word : string) :
  word ∈ action_tokens text <->
  In word Vocabulary.action_words /\ substring word (Str.lower text).
Proof.
  unfold action_tokens, set, words_in.
  rewrite elem_of_list_to_set, list_elem_of_In, filter_In, contains_spec.
  reflexivity.
Qed.



Example semantic_match_empty_strings :
  exists score : Q, semantic_match "" "" = Returned score /\ score == 0.
Proof. eexists. split; [vm_compute; reflexivity | reflexivity]. Qed.

(** C6: the scorer returns, for every pair of strings, a score in [0,1]. *)
Theorem semantic_match_total_in_unit_interval (x y : string) :
  exists score : Q,
    semantic_match x y = Returned score /\ 0 <= score /\ score <= 1.
Proof.
  exists (similarity x y). split.
  - apply semantic_match_returns.
  - apply similarity_bounds.
Qed.

(** C9: the scorer is symmetric. *)
Theorem semantic_match_symmetric (x y : string) :
  semantic_match x y = semantic_match y x.
Proof.
  rewrite !semantic_match_returns. unfold similarity.
  rewrite (overlap_comm (action_tokens x)), (overlap_comm (object_tokens x)).
  reflexivity.
Qed.

(** ** The scan of the timeline *)

(** Each loop of the matcher returns, moves [(best_match, best_score)] by a
    fold of [track] over the pairs it reads, and extends [matches] by the
    action phrases among them that reach the threshold. *)
Section Scan.
Variable pa : string.
Variable thr : Q.

Lemma above_app (ps qs : list (Item.t * string)) :
  above pa thr (ps ++ qs) = above pa thr ps ++ above pa thr qs.
Proof. unfold above. rewrite List.filter_app, map_app. reflexivity. Qed.

Lemma check_action_returns (it : Item.t) (l : locals) (ph : string) :
  exists l' : locals,
    check_action pa thr it l ph = Returned l' /\
    best l' = track pa (best l) (it, ph) /\
    matches l' = matches l ++ above pa thr [(it, ph)].
Proof.
  unfold check_action. rewrite semantic_match_returns.
  eexists. split; [reflexivity |].
  unfold track, above, best; simpl.
  destruct (Float.gtb (similarity pa ph) (best_score l));
    destruct (Float.geb (similarity pa ph) thr); simpl;
    rewrite ?app_nil_r; auto.
Qed.

Lemma check_element_returns (it : Item.t) (l : locals) (ph : string) :
  exists l' : locals,
    check_element pa it l ph = Returned l' /\
    best l' = track pa (best l) (it, ph) /\
    matches l' = matches l.
Proof.
  unfold check_element. rewrite semantic_match_returns.
  eexists. split; [reflexivity |].
  unfold track, best; simpl.
  destruct (Float.gtb (similarity pa ph) (best_score l)); auto.
Qed.

(** One turn of a loop: run the body by [Hbody], the rest by [IH]. *)
Local Ltac turn Hbody IH :=
  let l1 := fresh "l" in
  let l2 := fresh "l" in
  let Hrun := fresh "Hrun" in
  let Hb1 := fresh "Hb" in
  let Hm1 := fresh "Hm" in
  let Hb2 := fresh "Hb" in
  let Hm2 := fresh "Hm" in
  destruct Hbody as (l1 & -> & Hb1 & Hm1);
  destruct (IH l1) as (l2 & Hrun & Hb2 & Hm2);
  exists l2; split; [exact Hrun |];
  rewrite ?fold_left_app, Hb2, Hb1, Hm2, Hm1, <- ?app_assoc, <- ?above_app;
  auto.

Lemma actions_loop (it : Item.t) (phs : list string) (l : locals) :
  exists l' : locals,
    for_each (check_action pa thr it) phs l = Returned l' /\
    best l' = fold_left (track pa) (map (pair it) phs) (best l) /\
    matches l' = matches l ++ above pa thr (map (pair it) phs).
Proof.
  revert l; induction phs as [|ph phs IH]; intros l; simpl.
  - exists l. rewrite app_nil_r. auto.
  - turn (check_action_returns it l ph) IH.
Qed.

Lemma elements_loop (it : Item.t) (phs : list string) (l : locals) :
  exists l' : locals,
    for_each (check_element pa it) phs l = Returned l' /\
    best l' = fold_left (track pa) (map (pair it) phs) (best l) /\
    matches l' = matches l.
Proof.
  revert l; induction phs as [|ph phs IH]; intros l; simpl.
  - exists l. auto.
  - turn (check_element_returns it l ph) IH.
Qed.

Lemma check_item_returns (l : locals) (it : Item.t) :
  exists l' : locals,
    check_item pa thr l it = Returned l' /\
    best l' = fold_left (track pa) (map (pair it) (phrases it)) (best l) /\
    matches l' = matches l ++ above pa thr (map (pair it) (get (Item.actions it) [])).
Proof.
  unfold check_item, phrases. rewrite map_app.
  turn (actions_loop it (get (Item.actions it) []) l)
       (elements_loop it (get (Item.ui_elements it) [] ++ get (Item.text_content it) [])).
Qed.

Lemma timeline_loop (tl : list Item.t) (l : locals) :
  exists l' : locals,
    for_each (check_item pa thr) tl l = Returned l' /\
    best l' = fold_left (track pa) (scan_pairs tl) (best l) /\
    matches l' = matches l ++ above pa thr (action_pairs tl).
Proof.
  revert l; induction tl as [|it tl IH]; intros l; simpl.
  - exists l. rewrite app_nil_r. auto.
  - turn (check_item_returns l it) IH.
Qed.
End Scan.

(** What [match_step_with_timeline] returns, field by field. *)
Lemma match_step_returns (step : Step.t) (tl : list Item.t) (thr : Q) :
  exists r : Result.t,
    match_step_with_timeline step tl thr = Returned r /\
    (Result.best_match r, Result.best_score r)
      = fold_left (track (planned_action_of step)) (scan_pairs tl) (None, 0) /\
    Result.all_matches r = above (planned_action_of step) thr (action_pairs tl) /\
    Result.is_matched r = Float.geb (Result.best_score r) thr /\
    Result.result r = (if Result.is_matched r then "observed" else "deviation") /\
    Result.planned_step r = step.
Proof.
  unfold match_step_with_timeline.
  destruct (timeline_loop (planned_action_of step) thr tl
              {| best_match := None; best_score := 0; matches := [] |})
    as (l & -> & Hb & Hm).
  eexists. split; [reflexivity |]. simpl.
  repeat split; auto.
Qed.

(** ** Comparisons *)

Lemma gtb_spec (x y : Q) : Float.gtb x y = true <-> y < x.
Proof.
  unfold Float.gtb. rewrite negb_true_iff, <- not_true_iff_false, Qle_bool_iff.
  split; [apply Qnot_le_lt | apply Qlt_not_le].
Qed.

Lemma geb_spec (x y : Q) : Float.geb x y = true <-> y <= x.
Proof. unfold Float.geb. apply Qle_bool_iff. Qed.

Lemma ltb_spec (x y : Q) : Float.ltb x y = true <-> x < y.
Proof.
  unfold Float.ltb. rewrite negb_true_iff, <- not_true_iff_false, Qle_bool_iff.
  split; [apply Qnot_le_lt | apply Qlt_not_le].
Qed.

Lemma eqb_spec (x y : Q) : Float.eqb x y = true <-> x == y.
Proof. unfold Float.eqb. apply Qeq_bool_iff. Qed.

(** ** The best match *)

Lemma track_recorded (pa : string) (b : option Candidate.t * Q) (p : Item.t * string) :
  recorded b -> recorded (track pa b p).
Proof.
  intros Hb. unfold track.
  destruct (Float.gtb (similarity pa (snd p)) (snd b)) eqn:E; [| exact Hb].
  apply gtb_spec in E. right; simpl. split; [eauto |].
  destruct Hb as [[_ H0] | [_ Hpos]]; [rewrite H0 in E; exact E | lra].
Qed.

Lemma fold_track_recorded (pa : string) (ps : list (Item.t * string))
    (b : option Candidate.t * Q) :
  recorded b -> recorded (fold_left (track pa) ps b).
Proof.
  revert b; induction ps as [|p ps IH]; intros b Hb; simpl; [exact Hb |].
  apply IH, track_recorded, Hb.
Qed.




(** C10: the result carries a best match exactly when its best score is
    positive; at best score 0 there is none. *)
Theorem best_match_iff_positive_score (step : Step.t) (timeline : list Item.t)
    (threshold : Q) :
  exists r : Result.t,
    match_step_with_timeline step timeline threshold = Returned r /\
    (Result.best_match r <> None <-> 0 < Result.best_score r) /\
    (Result.best_score r == 0 -> Result.best_match r = None).
Proof.
  destruct (match_step_returns step timeline threshold) as (r & Hr & Hbest & _).
  exists r. split; [exact Hr |].
  pose proof (fold_track_recorded (planned_action_of step) (scan_pairs timeline)
                (None, 0)) as Hrec.
  rewrite <- Hbest in Hrec.
  destruct Hrec as [[Hnone Hzero] | [Hsome Hpos]]; simpl in *.
  - left; auto.
  - rewrite Hnone, Hzero. split; [| reflexivity].
    split; [congruence | intros H; lra].
  - destruct Hsome as [c Hc]. rewrite Hc. split.
    + split; [intros _; exact Hpos | discriminate].
    + intros H. rewrite H in Hpos. lra.
Qed.

(** ** The bands of [categorize_deviation] *)

Lemma categorize_deviation_cases (r : Result.t) :
  Result.is_matched r = false ->
  (Result.best_score r == 0 /\ categorize_deviation r = "skipped")
  \/ (~ Result.best_score r == 0 /\ Result.best_score r < 3 # 10
      /\ categorize_deviation r = "not_visible")
  \/ (~ Result.best_score r == 0 /\ 3 # 10 <= Result.best_score r
      /\ categorize_deviation r = "altered").
Proof.
  intros Hm. unfold categorize_deviation. rewrite Hm.
  destruct (Float.eqb (Result.best_score r) 0) eqn:E0.
  - left. apply eqb_spec in E0. auto.
  - apply not_true_iff_false in E0. rewrite eqb_spec in E0.
    destruct (Float.ltb (Result.best_score r) (3 # 10)) eqn:E3.
    + right; left. apply ltb_spec in E3. auto.
    + right; right. apply not_true_iff_false in E3. rewrite ltb_spec in E3.
      split; [exact E0 |]. split; [| reflexivity].
      apply Qnot_lt_le, E3.
Qed.

Lemma match_step_score_nonneg (step : Step.t) (tl : list Item.t) (thr : Q) (r : Result.t) :
  match_step_with_timeline step tl thr = Returned r -> 0 <= Result.best_score r.
Proof.
  intros Hr.
  destruct (match_step_returns step tl thr) as (r' & Hr' & Hbest & _).
  rewrite Hr in Hr'. injection Hr' as <-.
  pose proof (fold_track_recorded (planned_action_of step) (scan_pairs tl) (None, 0)) as Hrec.
  rewrite <- Hbest in Hrec.
  destruct Hrec as [[_ H0] | [_ Hpos]]; simpl in *; [left; auto | rewrite H0 | ]; lra.
Qed.

(** C2: among the deviations found at the default threshold 0.5, the
    category is [skipped] exactly at best score 0, [not_visible] exactly
    strictly between 0 and 0.3, and [altered] exactly from 0.3 up to 0.5;
    so 0.3 itself is [altered] and 0 is [skipped], never [not_visible]. *)
Theorem deviation_bands (step : Step.t) (timeline : list Item.t) (r : Result.t) :
  match_step_with_timeline step timeline default_threshold = Returned r ->
  Result.result r = "deviation" ->
  (categorize_deviation r = "skipped" <-> Result.best_score r == 0) /\
  (categorize_deviation r = "not_visible"
     <-> 0 < Result.best_score r /\ Result.best_score r < 3 # 10) /\
  (categorize_deviation r = "altered"
     <-> 3 # 10 <= Result.best_score r /\ Result.best_score r < 5 # 10) /\
  (Result.best_score r == 3 # 10 -> categorize_deviation r = "altered") /\
  (Result.best_score r == 0 ->
     categorize_deviation r = "skipped" /\ categorize_deviation r <> "not_visible").
Proof.
  intros Hr Hdev.
  pose proof (match_step_score_nonneg _ _ _ _ Hr) as Hnonneg.
  destruct (match_step_returns step timeline default_threshold)
    as (r' & Hr' & _ & _ & Hm & Hres & _).
  rewrite Hr in Hr'. injection Hr' as <-.
  assert (Result.is_matched r = false) as Hno.
  { destruct (Result.is_matched r); [rewrite Hdev in Hres; discriminate | reflexivity]. }
  assert (Result.best_score r < 5 # 10) as Hlt.
  { rewrite Hno in Hm. symmetry in Hm. apply not_true_iff_false in Hm.
    rewrite geb_spec in Hm. apply Qnot_le_lt, Hm. }
  assert (~ Result.best_score r == 0 -> 0 < Result.best_score r) as Hpos.
  { intros Hn0. apply Qle_lt_or_eq in Hnonneg as [? | Heq]; [assumption |].
    exfalso. apply Hn0. symmetry. exact Heq. }
  destruct (categorize_deviation_cases r Hno)
    as [[H0 ->] | [(Hn0 & H3 & ->) | (Hn0 & H3 & ->)]];
    try specialize (Hpos Hn0);
    repeat split; intros;
    repeat match goal with H : _ /\ _ |- _ => destruct H end;
    solve [ reflexivity | discriminate | assumption | contradiction | lra
          | exfalso; lra ].
Qed.

(** A step whose best score is exactly 0.3 is a deviation of category
    [altered]. *)
Lemma deviation_bands_witness :
  exists r : Result.t,
    match_step_with_timeline Sample.click_open_step [Sample.click_item] default_threshold
      = Returned r /\
    Result.result r = "deviation" /\
    Result.best_score r == 3 # 10 /\
    categorize_deviation r = "altered".
Proof.
  eexists. split; [vm_compute; reflexivity |].
  split; [reflexivity |]. split; [reflexivity |].
  apply (deviation_bands Sample.click_open_step [Sample.click_item] _ eq_refl eq_refl).
  reflexivity.
Defined.

(** ** Ties *)




(** ** The list of matches *)

(** Only action phrases enter [all_matches]. *)
Lemma all_matches_are_action_phrases (step : Step.t) (tl : list Item.t) (thr : Q) :
  exists r : Result.t,
    match_step_with_timeline step tl thr = Returned r /\
    Result.all_matches r = above (planned_action_of step) thr (action_pairs tl).
Proof.
  destruct (match_step_returns step tl thr) as (r & Hr & _ & Hm & _).
  exists r. auto.
Qed.

(** C4: a UI-element phrase that scores above the threshold confirms the
    step but is missing from [all_matches]. *)
Theorem ui_phrase_above_threshold_is_not_collected :
  exists (r : Result.t) (s : Q),
    match_step_with_timeline Sample.search_step [Sample.ui_only_item] default_threshold
      = Returned r /\
    semantic_match (planned_action_of Sample.search_step) "click search icon" = Returned s /\
    default_threshold <= s /\
    Result.is_matched r = true /\
    Result.best_match r = Some (candidate Sample.ui_only_item "click search icon" s) /\
    Result.all_matches r = [].
Proof.
  eexists; eexists.
  split; [vm_compute; reflexivity |].
  split; [vm_compute; reflexivity |].
  split; [discriminate |].
  repeat split.
Qed.

(** ** The batch *)

Lemma match_all_steps_loop (tl : list Item.t) (thr : Q) (steps : list Step.t)
    (results : list Result.t) :
  exists rs : list Result.t,
    for_each (append_match tl thr) steps results = Returned (results ++ rs) /\
    Forall2 (fun step r => match_step_with_timeline step tl thr = Returned r) steps rs.
Proof.
  revert results; induction steps as [|step steps IH]; intros results; simpl.
  - exists []. rewrite app_nil_r. split; [reflexivity | constructor].
  - destruct (match_step_returns step tl thr) as (r & Hr & _).
    assert (append_match tl thr results step = Returned (results ++ [r])) as ->.
    { unfold append_match. rewrite Hr. reflexivity. }
    cbn [mbind outcome_bind].
    destruct (IH (results ++ [r])) as (rs & Hrun & Hall).
    exists (r :: rs). split.
    + rewrite Hrun, <- app_assoc. reflexivity.
    + constructor; assumption.
Qed.

Lemma match_all_steps_returns (steps : list Step.t) (tl : list Item.t) (thr : Q) :
  exists rs : list Result.t,
    match_all_steps steps tl thr = Returned rs /\
    Forall2 (fun step r => match_step_with_timeline step tl thr = Returned r) steps rs.
Proof. apply (match_all_steps_loop tl thr steps []). Qed.

(** C5 (as amended): with a positive threshold, matching any list of steps
    against the empty timeline returns one result per step, in order, each a
    deviation with best score 0, no best match, and category [skipped]. *)
Theorem empty_timeline_skips_every_step (steps : list Step.t) (threshold : Q) :
  0 < threshold ->
  exists rs : list Result.t,
    match_all_steps steps [] threshold = Returned rs /\
    length rs = length steps /\
    map Result.planned_step rs = steps /\
    Forall (fun r => Result.result r = "deviation" /\
                     Result.best_score r = 0 /\
                     Result.best_match r = None /\
                     categorize_deviation r = "skipped") rs.
Proof.
  intros Hthr.
  destruct (match_all_steps_returns steps [] threshold) as (rs & Hrun & Hall).
  exists rs. split; [exact Hrun |].
  assert (Float.geb 0 threshold = false) as Hge.
  { apply not_true_iff_false. rewrite geb_spec. apply Qlt_not_le, Hthr. }
  clear Hrun. induction Hall as [|step r steps rs Hr Hall IH].
  - repeat split; constructor.
  - destruct IH as (Hlen & Hsteps & Hrs).
    unfold match_step_with_timeline in Hr; simpl in Hr. rewrite Hge in Hr.
    injection Hr as <-.
    simpl. rewrite Hlen, Hsteps. repeat split.
    constructor; [| exact Hrs].
    unfold categorize_deviation; simpl. auto.
Qed.

(** Two steps against the empty timeline at the default threshold. *)
Lemma empty_timeline_skips_every_step_witness :
  exists rs : list Result.t,
    match_all_steps [Sample.password_step; Sample.search_step] [] default_threshold
      = Returned rs /\
    length rs = 2%nat /\
    Forall (fun r => Result.result r = "deviation" /\
                     Result.best_score r = 0 /\
                     categorize_deviation r = "skipped") rs.
Proof.
  destruct (empty_timeline_skips_every_step
              [Sample.password_step; Sample.search_step] default_threshold)
    as (rs & Hrun & Hlen & _ & Hrs).
  - reflexivity.
  - exists rs. split; [exact Hrun |]. split; [exact Hlen |].
    eapply List.Forall_impl; [| exact Hrs]. simpl. intuition.
Defined.

(** C5 (as stated) fails at threshold 0: the empty timeline leaves the best
    score at 0, which reaches the threshold, and the step is observed. *)
Lemma empty_timeline_at_threshold_zero_is_observed :
  exists r : Result.t,
    match_all_steps [Sample.password_step] [] 0 = Returned [r] /\
    Result.best_score r = 0 /\
    Result.result r = "observed" /\
    categorize_deviation r = "observed".
Proof.
  eexists. split; [vm_compute; reflexivity |]. repeat split.
Qed.

(** ** Errors *)

(** C7 (as amended): the step matcher and the batch return a result for
    every threshold, inside or outside [0,1]; no threshold makes them
    raise. *)
Theorem step_matcher_accepts_every_threshold
    (step : Step.t) (steps : list Step.t) (timeline : list Item.t) (threshold : Q) :
  (exists r : Result.t,
     match_step_with_timeline step timeline threshold = Returned r) /\
  (exists rs : list Result.t,
     match_all_steps steps timeline threshold = Returned rs /\
     length rs = length steps).
Proof.
  split.
  - destruct (match_step_returns step timeline threshold) as (r & Hr & _).
    exists r. exact Hr.
  - destruct (match_all_steps_returns steps timeline threshold) as (rs & Hrun & Hall).
    exists rs. split; [exact Hrun |].
    symmetry. eapply List.Forall2_length, Hall.
Qed.

(** C7 (as stated) fails: the thresholds 3/2 and -1 lie outside [0,1] and
    the matcher returns for both. *)
Lemma threshold_outside_unit_interval_is_accepted :
  ~ (0 <= 3 # 2 /\ 3 # 2 <= 1) /\
  ~ (0 <= - (1) /\ - (1) <= 1) /\
  (exists r : Result.t,
     match_step_with_timeline Sample.search_step [Sample.search_item_5] (3 # 2)
       = Returned r /\
     Result.result r = "deviation") /\
  (exists r : Result.t,
     match_step_with_timeline Sample.search_step [Sample.search_item_5] (- (1))
       = Returned r /\
     Result.result r = "observed") /\
  match_step_with_timeline Sample.search_step [Sample.search_item_5] (3 # 2)
    <> Raised "ConfigurationError" /\
  match_all_steps [Sample.search_step] [Sample.search_item_5] (3 # 2)
    <> Raised "ConfigurationError".
Proof.
  split; [intros [_ H]; apply H; reflexivity |].
  split; [intros [H _]; apply H; reflexivity |].
  split; [eexists; split; [vm_compute; reflexivity | reflexivity] |].
  split; [eexists; split; [vm_compute; reflexivity | reflexivity] |].
  split; vm_compute; discriminate.
Qed.

Lemma get_default {A : Type} (field : option A) (fallback : A) :
  get field fallback = default fallback field.
Proof. destruct field; reflexivity. Qed.

Lemma append_frame_returns (timeline : list Item.t) (frame : Frame.t) :
  exists items : list Item.t,
    append_frame timeline frame = Returned (timeline ++ items) /\
    Forall2 entry_with_defaults (List.filter has_evidence [frame]) items.
Proof.
  unfold append_frame. cbn [List.filter]. fold (has_evidence frame).
  destruct (has_evidence frame).
  - eexists [_]. split; [reflexivity |].
    constructor; [| constructor].
    unfold entry_with_defaults; simpl. rewrite !get_default. auto.
  - exists []. rewrite app_nil_r. split; [reflexivity | constructor].
Qed.

Lemma build_action_timeline_loop (frames : list Frame.t) (timeline : list Item.t) :
  exists items : list Item.t,
    for_each append_frame frames timeline = Returned (timeline ++ items) /\
    Forall2 entry_with_defaults (List.filter has_evidence frames) items.
Proof.
  revert timeline; induction frames as [|frame frames IH]; intros timeline.
  - exists []. simpl. rewrite app_nil_r. split; [reflexivity | constructor].
  - destruct (append_frame_returns timeline frame) as (new & Hnew & Hentry).
    destruct (IH (timeline ++ new)) as (items & Hrun & Hall).
    exists (new ++ items). split.
    + cbn [for_each]. rewrite Hnew. cbn [mbind outcome_bind].
      rewrite Hrun, <- app_assoc. reflexivity.
    + change (frame :: frames) with ([frame] ++ frames).
      rewrite List.filter_app. apply Forall2_app; assumption.
Qed.

(** C8 (as amended): the timeline builder returns for every collection of
    frames; every frame with at least one phrase yields one entry, in
    order, where a missing timestamp reads as 0 (and a missing formatted
    timestamp as 00:00) and a missing phrase list reads as empty. *)
Theorem build_action_timeline_defaults (analyzed_frames : list Frame.t) :
  exists timeline : list Item.t,
    build_action_timeline analyzed_frames = Returned timeline /\
    Forall2
      (fun frame item =>
         Item.timestamp item = Some (default 0 (Frame.timestamp frame)) /\
         Item.timestamp_formatted item
           = Some (default "00:00" (Frame.timestamp_formatted frame)) /\
         Item.actions item = Some (default [] (Frame.detected_actions frame)) /\
         Item.ui_elements item = Some (default [] (Frame.ui_elements frame)) /\
         Item.text_content item = Some (default [] (Frame.text_content frame)))
      (List.filter has_evidence analyzed_frames) timeline.
Proof. apply (build_action_timeline_loop analyzed_frames []). Qed.

(** C8 (as stated) fails: a frame without the key [timestamp] raises
    nothing and enters the timeline at timestamp 0. *)
Lemma frame_without_timestamp_is_accepted :
  Frame.timestamp Sample.untimed_frame = None /\
  build_action_timeline [Sample.untimed_frame]
    = Returned [ Item.make (Some 0) (Some "00:00") (Some ["click"]) (Some []) (Some [])
                   (Some "") (Some 0%Z) ] /\
  build_action_timeline [Sample.untimed_frame] <> Raised "InputError".
Proof.
  split; [reflexivity |]. split; [reflexivity | discriminate].
Qed.

(** ** More on the step matcher *)

Lemma track_grows (pa : string) (b : option Candidate.t * Q) (p : Item.t * string) :
  snd b <= snd (track pa b p) /\ similarity pa (snd p) <= snd (track pa b p).
Proof.
  unfold track. destruct (Float.gtb _ _) eqn:E; simpl.
  - apply gtb_spec in E. split; lra.
  - apply not_true_iff_false in E. rewrite gtb_spec in E.
    apply Qnot_lt_le in E. split; lra.
Qed.

Lemma fold_track_grows (pa : string) (ps : list (Item.t * string))
    (b : option Candidate.t * Q) :
  snd b <= snd (fold_left (track pa) ps b) /\
  Forall (fun p => similarity pa (snd p) <= snd (fold_left (track pa) ps b)) ps.
Proof.
  revert b; induction ps as [|p ps IH]; intros b; simpl.
  - split; [lra | constructor].
  - destruct (IH (track pa b p)) as [Hb Hps].
    destruct (track_grows pa b p) as [Hb' Hp].
    split; [lra |]. constructor; [lra | exact Hps].
Qed.

Lemma fold_track_attained (pa : string) (ps : list (Item.t * string))
    (b : option Candidate.t * Q) :
  fold_left (track pa) ps b = b \/
  exists p : Item.t * string,
    In p ps /\
    fold_left (track pa) ps b
    = (Some (candidate (fst p) (snd p) (similarity pa (snd p))), similarity pa (snd p)).
Proof.
  revert b; induction ps as [|p ps IH]; intros b; simpl; [left; reflexivity |].
  destruct (IH (track pa b p)) as [Hkeep | (q & Hq & Hfold)].
  - rewrite Hkeep. unfold track. destruct (Float.gtb _ _); [| left; reflexivity].
    right. exists p. split; [left; reflexivity | reflexivity].
  - right. exists q. split; [right; exact Hq | exact Hfold].
Qed.

(** X1: the verdict of a result is [observed] exactly when its best score
    reaches the threshold, and [deviation] otherwise; [is_matched] says the
    same. *)
Theorem verdict_iff_threshold_reached (step : Step.t) (timeline : list Item.t)
    (threshold : Q) :
  exists r : Result.t,
    match_step_with_timeline step timeline threshold = Returned r /\
    (Result.is_matched r = true <-> threshold <= Result.best_score r) /\
    (Result.result r = "observed" <-> threshold <= Result.best_score r) /\
    (Result.result r = "deviation" <-> Result.best_score r < threshold).
Proof.
  destruct (match_step_returns step timeline threshold)
    as (r & Hr & _ & _ & Hm & Hres & _).
  exists r. split; [exact Hr |].
  rewrite Hres, Hm, <- geb_spec.
  destruct (Float.geb (Result.best_score r) threshold) eqn:E.
  - apply geb_spec in E.
    repeat split; intros; try reflexivity; try discriminate; lra.
  - apply not_true_iff_false in E. rewrite geb_spec in E. apply Qnot_le_lt in E.
    repeat split; intros; try reflexivity; try discriminate; try assumption; lra.
Qed.

(** X2: the best score lies in [0,1], no scanned phrase scores higher, and a
    positive best score is the score of some scanned phrase. *)
Theorem best_score_is_the_maximum (step : Step.t) (timeline : list Item.t)
    (threshold : Q) :
  exists r : Result.t,
    match_step_with_timeline step timeline threshold = Returned r /\
    0 <= Result.best_score r /\ Result.best_score r <= 1 /\
    (forall (p : Item.t * string) (s : Q),
       In p (scan_pairs timeline) ->
       semantic_match (planned_action_of step) (snd p) = Returned s ->
       s <= Result.best_score r) /\
    (0 < Result.best_score r ->
     exists p : Item.t * string,
       In p (scan_pairs timeline) /\
       semantic_match (planned_action_of step) (snd p) = Returned (Result.best_score r)).
Proof.
  destruct (match_step_returns step timeline threshold) as (r & Hr & Hbest & _).
  exists r. split; [exact Hr |].
  set (pa := planned_action_of step) in *.
  destruct (fold_track_grows pa (scan_pairs timeline) (None, 0)) as [H0 Hall].
  destruct (fold_track_attained pa (scan_pairs timeline) (None, 0))
    as [Hkeep | (p & Hp & Hfold)];
    rewrite <- Hbest in *; simpl in *.
  - injection Hkeep as _ Hs. rewrite Hs.
    split; [lra |]. split; [lra |]. split.
    + intros q s Hq Hsm. rewrite semantic_match_returns in Hsm. injection Hsm as <-.
      rewrite List.Forall_forall in Hall. specialize (Hall q Hq). rewrite Hs in Hall.
      exact Hall.
    + intros H. lra.
  - injection Hfold as _ Hs.
    split; [exact H0 |]. split.
    { rewrite Hs. apply similarity_bounds. }
    split.
    + intros q s Hq Hsm. rewrite semantic_match_returns in Hsm. injection Hsm as <-.
      rewrite List.Forall_forall in Hall. apply (Hall q Hq).
    + intros _. exists p. split; [exact Hp |].
      rewrite Hs. apply semantic_match_returns.
Qed.

(** X3: a recorded best match names a phrase of a timeline entry, carries
    that phrase's score, which is the best score, and the entry's timestamp
    (0 and 00:00 when the entry has none). *)
Theorem best_match_is_a_scanned_pair (step : Step.t) (timeline : list Item.t)
    (threshold : Q) :
  exists r : Result.t,
    match_step_with_timeline step timeline threshold = Returned r /\
    forall c : Candidate.t,
      Result.best_match r = Some c ->
      In (Candidate.timeline_item c) timeline /\
      In (Candidate.observed_action c) (phrases (Candidate.timeline_item c)) /\
      semantic_match (planned_action_of step) (Candidate.observed_action c)
        = Returned (Candidate.score c) /\
      Candidate.score c = Result.best_score r /\
      Candidate.timestamp c = default 0 (Item.timestamp (Candidate.timeline_item c)) /\
      Candidate.timestamp_formatted c
        = default "00:00" (Item.timestamp_formatted (Candidate.timeline_item c)).
Proof.
  destruct (match_step_returns step timeline threshold) as (r & Hr & Hbest & _).
  exists r. split; [exact Hr |]. intros c Hc.
  destruct (fold_track_attained (planned_action_of step) (scan_pairs timeline) (None, 0))
    as [Hkeep | ([it ph] & Hp & Hfold)];
    rewrite <- Hbest in *.
  - rewrite Hc in Hkeep. discriminate.
  - rewrite Hc in Hfold. injection Hfold as -> ->. simpl.
    unfold scan_pairs in Hp. apply in_flat_map in Hp as (it' & Hit' & Hin).
    apply in_map_iff in Hin as (ph' & Heq & Hph'). injection Heq as -> ->.
    rewrite !get_default.
    repeat split; auto. apply semantic_match_returns.
Qed.

Lemma above_spec (pa : string) (thr : Q) (pairs : list (Item.t * string)) (c : Candidate.t) :
  In c (above pa thr pairs) <->
  exists p : Item.t * string,
    In p pairs /\ thr <= similarity pa (snd p) /\
    c = candidate (fst p) (snd p) (similarity pa (snd p)).
Proof.
  unfold above. rewrite in_map_iff. split.
  - intros (p & <- & Hp). apply filter_In in Hp as [Hp Hge].
    apply geb_spec in Hge. eauto.
  - intros (p & Hp & Hge & ->). exists p. split; [reflexivity |].
    apply filter_In. split; [exact Hp | apply geb_spec, Hge].
Qed.

Lemma action_pairs_spec (tl : list Item.t) (it : Item.t) (ph : string) :
  In (it, ph) (action_pairs tl) <-> In it tl /\ In ph (get (Item.actions it) []).
Proof.
  unfold action_pairs. rewrite in_flat_map. split.
  - intros (it' & Hit' & Hin). apply in_map_iff in Hin as (ph' & Heq & Hph').
    injection Heq as -> ->. auto.
  - intros [Hit Hph]. exists it. split; [exact Hit |]. apply in_map, Hph.
Qed.

(** X4: [all_matches] holds exactly the action phrases of the timeline that
    score at least the threshold, each with its entry and score; none of
    its scores exceeds the best score, and a non-empty list means the step
    is matched. *)
Theorem all_matches_are_the_confirming_actions (step : Step.t) (timeline : list Item.t)
    (threshold : Q) :
  exists r : Result.t,
    match_step_with_timeline step timeline threshold = Returned r /\
    (forall c : Candidate.t,
       In c (Result.all_matches r) <->
       exists (item : Item.t) (phrase : string) (s : Q),
         In item timeline /\ In phrase (default [] (Item.actions item)) /\
         semantic_match (planned_action_of step) phrase = Returned s /\
         threshold <= s /\ c = candidate item phrase s) /\
    Forall (fun c => Candidate.score c <= Result.best_score r) (Result.all_matches r) /\
    (Result.all_matches r <> [] -> Result.is_matched r = true).
Proof.
  destruct (match_step_returns step timeline threshold)
    as (r & Hr & Hbest & Hall & Hm & _).
  exists r. split; [exact Hr |].
  set (pa := planned_action_of step) in *.
  assert (forall c : Candidate.t,
            In c (Result.all_matches r) <->
            exists (item : Item.t) (phrase : string) (s : Q),
              In item timeline /\ In phrase (default [] (Item.actions item)) /\
              semantic_match pa phrase = Returned s /\
              threshold <= s /\ c = candidate item phrase s) as Hchar.
  { intros c. rewrite Hall, above_spec. split.
    - intros ([it ph] & Hp & Hge & ->). apply action_pairs_spec in Hp as [Hit Hph].
      rewrite get_default in Hph.
      exists it, ph, (similarity pa ph). simpl.
      repeat split; auto. apply semantic_match_returns.
    - intros (it & ph & s & Hit & Hph & Hs & Hge & ->).
      rewrite semantic_match_returns in Hs. injection Hs as <-.
      exists (it, ph). simpl. repeat split; auto.
      apply action_pairs_spec. rewrite get_default. auto. }
  destruct (fold_track_grows pa (scan_pairs timeline) (None, 0)) as [_ Hmax].
  rewrite <- Hbest in Hmax; simpl in Hmax. rewrite List.Forall_forall in Hmax.
  assert (Forall (fun c => Candidate.score c <= Result.best_score r)
            (Result.all_matches r)) as Hle.
  { apply List.Forall_forall. intros c Hc.
    apply Hchar in Hc as (it & ph & s & Hit & Hph & Hs & _ & ->). simpl.
    rewrite semantic_match_returns in Hs. injection Hs as <-.
    apply (Hmax (it, ph)). unfold scan_pairs. apply in_flat_map.
    exists it. split; [exact Hit |]. apply in_map. unfold phrases.
    rewrite get_default. apply in_or_app. left. exact Hph. }
  split; [exact Hchar |]. split; [exact Hle |].
  intros Hne. rewrite Hm. apply geb_spec.
  destruct (Result.all_matches r) as [|c cs] eqn:E; [contradiction |].
  apply Forall_cons_iff in Hle as [Hc _].
  assert (In c (c :: cs)) as Hin by (left; reflexivity).
  apply Hchar in Hin as (it & ph & s & _ & _ & _ & Hge & ->). simpl in Hc. lra.
Qed.

(** X5: the best match and the best score do not depend on the threshold. *)
Theorem best_match_independent_of_threshold (step : Step.t) (timeline : list Item.t)
    (threshold threshold' : Q) :
  exists r r' : Result.t,
    match_step_with_timeline step timeline threshold = Returned r /\
    match_step_with_timeline step timeline threshold' = Returned r' /\
    Result.best_match r = Result.best_match r' /\
    Result.best_score r = Result.best_score r'.
Proof.
  destruct (match_step_returns step timeline threshold) as (r & Hr & Hbest & _).
  destruct (match_step_returns step timeline threshold') as (r' & Hr' & Hbest' & _).
  exists r, r'. rewrite <- Hbest' in Hbest. injection Hbest as -> ->. auto.
Qed.

(** X6: for any threshold, the category of a result is [observed] exactly
    when the best score reaches the threshold, [skipped] exactly for a
    deviation at best score 0, [not_visible] for a deviation strictly
    between 0 and 0.3, and [altered] for a deviation from 0.3 upwards; with
    a threshold of at most 0.3 nothing is [altered]. *)
Theorem categories_for_any_threshold (step : Step.t) (timeline : list Item.t)
    (threshold : Q) :
  exists r : Result.t,
    match_step_with_timeline step timeline threshold = Returned r /\
    (categorize_deviation r = "observed" <-> threshold <= Result.best_score r) /\
    (categorize_deviation r = "skipped"
       <-> Result.best_score r < threshold /\ Result.best_score r == 0) /\
    (categorize_deviation r = "not_visible"
       <-> Result.best_score r < threshold /\
           0 < Result.best_score r /\ Result.best_score r < 3 # 10) /\
    (categorize_deviation r = "altered"
       <-> Result.best_score r < threshold /\ 3 # 10 <= Result.best_score r) /\
    (threshold <= 3 # 10 -> categorize_deviation r <> "altered").
Proof.
  destruct (match_step_returns step timeline threshold)
    as (r & Hr & _ & _ & Hm & _).
  exists r. split; [exact Hr |].
  pose proof (match_step_score_nonneg _ _ _ _ Hr) as Hnonneg.
  assert (~ Result.best_score r == 0 -> 0 < Result.best_score r) as Hpos.
  { intros Hn0. apply Qle_lt_or_eq in Hnonneg as [? | Heq]; [assumption |].
    exfalso. apply Hn0. symmetry. exact Heq. }
  destruct (Result.is_matched r) eqn:E.
  - symmetry in Hm. apply geb_spec in Hm.
    unfold categorize_deviation. rewrite E.
    repeat split; intros;
      repeat match goal with H : _ /\ _ |- _ => destruct H end;
      solve [ reflexivity | discriminate | assumption | exfalso; lra ].
  - symmetry in Hm. apply not_true_iff_false in Hm. rewrite geb_spec in Hm.
    apply Qnot_le_lt in Hm.
    destruct (categorize_deviation_cases r E)
      as [[H0 ->] | [(Hn0 & H3 & ->) | (Hn0 & H3 & ->)]];
      try specialize (Hpos Hn0);
      repeat split; intros;
      repeat match goal with H : _ /\ _ |- _ => destruct H end;
      solve [ reflexivity | discriminate | assumption | contradiction | lra
            | exfalso; lra ].
Qed.

(** ** More on the scorer *)

Lemma overlap_zero_iff (A B : gset string) : overlap A B == 0 <-> A ∩ B = ∅.
Proof.
  unfold overlap, Qeq; simpl. rewrite Z.mul_1_r. split.
  - intros H. apply leibniz_equiv, size_empty_iff. lia.
  - intros ->. rewrite size_empty. reflexivity.
Qed.

Lemma overlap_self (A : gset string) :
  overlap A A == (if decide (A = ∅) then 0 else 1).
Proof.
  unfold overlap. rewrite (idemp_L (∩) A), (idemp_L (∪) A).
  destruct (decide (A = ∅)) as [-> | Hne].
  - rewrite size_empty. reflexivity.
  - assert (size A <> 0%nat) as Hsize.
    { intros H. apply Hne, leibniz_equiv, size_empty_iff, H. }
    unfold Qeq; simpl. rewrite Z.mul_1_r, Z.mul_1_l.
    rewrite Nat.max_l by lia.
    rewrite <- positive_nat_Z, Nat2Pos.id by exact Hsize. reflexivity.
Qed.

(** X7: a text scored against itself gets 0.6 if it contains an action
    word, plus 0.4 if it has an object; a text with neither scores 0
    against itself. *)
Theorem semantic_match_of_a_text_with_itself (x : string) :
  exists score : Q,
    semantic_match x x = Returned score /\
    score == (if decide (action_tokens x = ∅) then 0 else 6 # 10)
             + (if decide (set (extract_objects x) = ∅) then 0 else 4 # 10).
Proof.
  exists (similarity x x). split; [apply semantic_match_returns |].
  unfold similarity, object_tokens. rewrite !overlap_self.
  destruct (decide (action_tokens x = ∅)), (decide (set (extract_objects x) = ∅));
    reflexivity.
Qed.

(** X8: the score is 0 exactly when the two texts share no action word and
    no object. *)
Theorem semantic_match_zero_iff_nothing_shared (planned observed : string) :
  exists score : Q,
    semantic_match planned observed = Returned score /\
    (score == 0 <->
     action_tokens planned ∩ action_tokens observed = ∅ /\
     set (extract_objects planned) ∩ set (extract_objects observed) = ∅).
Proof.
  exists (similarity planned observed). split; [apply semantic_match_returns |].
  unfold similarity, object_tokens.
  rewrite <- !overlap_zero_iff.
  destruct (overlap_bounds (action_tokens planned) (action_tokens observed)) as [Ha _].
  destruct (overlap_bounds (set (extract_objects planned)) (set (extract_objects observed)))
    as [Ho _].
  split; [intros H; split; lra | intros [H1 H2]; lra].
Qed.

Lemma similarity_above_object_weight (planned observed : string) :
  4 # 10 < similarity planned observed ->
  exists word : string,
    In word Vocabulary.action_words /\
    substring word (Str.lower planned) /\ substring word (Str.lower observed).
Proof.
  intros Hs. unfold similarity in Hs.
  destruct (overlap_bounds (object_tokens planned) (object_tokens observed)) as [_ Ho].
  destruct (decide (action_tokens planned ∩ action_tokens observed = ∅)) as [He | Hne].
  - apply overlap_zero_iff in He. lra.
  - apply set_choose_L in Hne as [word Hword].
    apply elem_of_intersection in Hword as [Hp Ho'].
    apply action_tokens_spec in Hp as [Hin Hp]. apply action_tokens_spec in Ho' as [_ Ho'].
    exists word. auto.
Qed.

(** X9: with a threshold above 0.4, an observed step has a best match whose
    phrase shares an action word with the step's text: objects alone never
    confirm a step. *)
Theorem observed_step_shares_an_action_word (step : Step.t) (timeline : list Item.t)
    (threshold : Q) (r : Result.t) :
  4 # 10 < threshold ->
  match_step_with_timeline step timeline threshold = Returned r ->
  Result.result r = "observed" ->
  exists (c : Candidate.t) (word : string),
    Result.best_match r = Some c /\
    In word Vocabulary.action_words /\
    substring word (Str.lower (planned_action_of step)) /\
    substring word (Str.lower (Candidate.observed_action c)).
Proof.
  intros Hthr Hr Hobs.
  destruct (match_step_returns step timeline threshold)
    as (r' & Hr' & Hbest & _ & Hm & Hres & _).
  rewrite Hr in Hr'. injection Hr' as <-.
  assert (threshold <= Result.best_score r) as Hge.
  { apply geb_spec. rewrite <- Hm.
    destruct (Result.is_matched r); [reflexivity | rewrite Hobs in Hres; discriminate]. }
  destruct (fold_track_attained (planned_action_of step) (scan_pairs timeline) (None, 0))
    as [Hkeep | ([it ph] & _ & Hfold)];
    rewrite <- Hbest in *.
  - injection Hkeep as _ Hs. rewrite Hs in Hge. lra.
  - injection Hfold as Hc Hs. simpl in *.
    destruct (similarity_above_object_weight (planned_action_of step) ph)
      as (word & Hin & Hp & Ho); [rewrite <- Hs; lra |].
    eexists; exists word. split; [exact Hc |]. simpl. auto.
Qed.

(** A step confirmed at the default threshold by an action phrase at 5s. *)
Lemma observed_step_shares_an_action_word_witness :
  exists (c : Candidate.t) (word : string),
    In word Vocabulary.action_words /\
    substring word (Str.lower (planned_action_of Sample.search_step)) /\
    substring word (Str.lower (Candidate.observed_action c)).
Proof.
  destruct (observed_step_shares_an_action_word
              Sample.search_step [Sample.search_item_5] default_threshold
              {| Result.planned_step := Sample.search_step;
                 Result.planned_action := "click search icon";
                 Result.best_match :=
                   Some (candidate Sample.search_item_5 "click search icon" (400 # 400));
                 Result.best_score := 400 # 400;
                 Result.all_matches :=
                   [candidate Sample.search_item_5 "click search icon" (400 # 400)];
                 Result.is_matched := true;
                 Result.result := "observed" |})
    as (c & word & _ & H).
  - reflexivity.
  - vm_compute. reflexivity.
  - reflexivity.
  - exists c, word. exact H.
Defined.

(** ** More on the batch and on the timeline *)

Lemma for_each_app {A S : Type} (body : S -> A -> outcome S) (l1 l2 : list A) (s : S) :
  for_each body (l1 ++ l2) s = (s' ← for_each body l1 s; for_each body l2 s').
Proof.
  revert s; induction l1 as [|x l1 IH]; intros s; simpl; [reflexivity |].
  destruct (body s x); simpl; [apply IH | reflexivity].
Qed.

(** X10: the batch matches every step on its own against the shared
    timeline and returns the results in the order of the steps; the batch
    of two lists of steps is the batch of the first followed by the batch
    of the second. *)
Theorem match_all_steps_is_stepwise (steps steps' : list Step.t) (timeline : list Item.t)
    (threshold : Q) :
  exists rs rs' : list Result.t,
    match_all_steps steps timeline threshold = Returned rs /\
    match_all_steps steps' timeline threshold = Returned rs' /\
    match_all_steps (steps ++ steps') timeline threshold = Returned (rs ++ rs') /\
    Forall2 (fun step r => match_step_with_timeline step timeline threshold = Returned r)
      steps rs /\
    map Result.planned_step rs = steps.
Proof.
  destruct (match_all_steps_loop timeline threshold steps []) as (rs & Hrs & Hall).
  destruct (match_all_steps_loop timeline threshold steps' rs) as (rs' & Hrs' & Hall').
  destruct (match_all_steps_loop timeline threshold steps' []) as (rs0 & Hrs0 & Hall0).
  assert (rs0 = rs') as ->.
  { clear Hrs0 Hrs'. revert rs' Hall'.
    induction Hall0 as [|step r ss rr Hr _ IH]; intros rs' Hall'.
    - inversion Hall'. reflexivity.
    - inversion Hall' as [|? r' ? rr' Hr' Hrest]; subst.
      rewrite Hr in Hr'. injection Hr' as <-. f_equal. apply IH, Hrest. }
  exists rs, rs'. unfold match_all_steps. simpl in Hrs, Hrs0.
  split; [exact Hrs |]. split; [exact Hrs0 |].
  split; [rewrite for_each_app, Hrs; exact Hrs' |].
  split; [exact Hall |].
  clear Hrs Hrs' Hrs0 Hall' Hall0.
  induction Hall as [|step r ss rr Hr _ IH]; [reflexivity |].
  simpl. rewrite IH. f_equal.
  destruct (match_step_returns step timeline threshold) as (r' & Hr' & _ & _ & _ & _ & Hstep).
  rewrite Hr in Hr'. injection Hr' as <-. exact Hstep.
Qed.

Lemma gtb_false (x y : Q) : x <= y -> Float.gtb x y = false.
Proof.
  intros H. apply not_true_iff_false. rewrite gtb_spec. apply Qle_not_lt, H.
Qed.

Lemma fold_track_resume (pa : string) (ps : list (Item.t * string))
    (c b : option Candidate.t * Q) :
  snd c <= snd b ->
  fold_left (track pa) ps b
  = if Float.gtb (snd (fold_left (track pa) ps c)) (snd b)
    then fold_left (track pa) ps c
    else b.
Proof.
  revert c b; induction ps as [|p ps IH]; intros c b Hcb; simpl.
  - rewrite gtb_false by exact Hcb. reflexivity.
  - set (new := (Some (candidate (fst p) (snd p) (similarity pa (snd p))),
                 similarity pa (snd p))).
    destruct (Float.gtb (similarity pa (snd p)) (snd b)) eqn:Eb.
    + assert (track pa b p = new) as -> by (unfold track; rewrite Eb; reflexivity).
      apply gtb_spec in Eb.
      assert (track pa c p = new) as ->.
      { unfold track.
        assert (Float.gtb (similarity pa (snd p)) (snd c) = true) as ->
          by (apply gtb_spec; lra).
        reflexivity. }
      destruct (fold_track_grows pa ps new) as [Hgrow _]; simpl in Hgrow.
      assert (Float.gtb (snd (fold_left (track pa) ps new)) (snd b) = true) as ->
        by (apply gtb_spec; lra).
      reflexivity.
    + assert (track pa b p = b) as -> by (unfold track; rewrite Eb; reflexivity).
      apply not_true_iff_false in Eb. rewrite gtb_spec in Eb. apply Qnot_lt_le in Eb.
      destruct (Float.gtb (similarity pa (snd p)) (snd c)) eqn:Ec.
      * assert (track pa c p = new) as -> by (unfold track; rewrite Ec; reflexivity).
        apply IH. simpl. exact Eb.
      * assert (track pa c p = c) as -> by (unfold track; rewrite Ec; reflexivity).
        apply IH. exact Hcb.
Qed.

(** X11: matching against two timelines placed one after the other keeps
    the best match of the first unless the second scores strictly higher,
    and joins the two lists of matches. *)
Theorem match_step_over_joined_timelines (step : Step.t) (timeline timeline' : list Item.t)
    (threshold : Q) :
  exists r r' r'' : Result.t,
    match_step_with_timeline step timeline threshold = Returned r /\
    match_step_with_timeline step timeline' threshold = Returned r' /\
    match_step_with_timeline step (timeline ++ timeline') threshold = Returned r'' /\
    (Result.best_match r'', Result.best_score r'')
      = (if Float.gtb (Result.best_score r') (Result.best_score r)
         then (Result.best_match r', Result.best_score r')
         else (Result.best_match r, Result.best_score r)) /\
    Result.all_matches r'' = Result.all_matches r ++ Result.all_matches r'.
Proof.
  destruct (match_step_returns step timeline threshold) as (r & Hr & Hb & Hm & _).
  destruct (match_step_returns step timeline' threshold) as (r' & Hr' & Hb' & Hm' & _).
  destruct (match_step_returns step (timeline ++ timeline') threshold)
    as (r'' & Hr'' & Hb'' & Hm'' & _).
  exists r, r', r''. split; [exact Hr |]. split; [exact Hr' |]. split; [exact Hr'' |].
  split.
  - rewrite Hb''. unfold scan_pairs. rewrite flat_map_app, fold_left_app.
    fold (scan_pairs timeline) (scan_pairs timeline').
    rewrite <- Hb.
    rewrite (fold_track_resume _ _ (None, 0)); simpl.
    + rewrite <- Hb'. reflexivity.
    + eapply match_step_score_nonneg, Hr.
  - rewrite Hm'', Hm, Hm'. unfold action_pairs. rewrite flat_map_app. apply above_app.
Qed.

(** X12: the timeline builder drops only frames without phrases: reading
    the entries of the timeline in order gives every phrase of every frame,
    in order; every entry has a phrase, and there are at most as many
    entries as frames. *)
Theorem build_action_timeline_keeps_every_phrase (analyzed_frames : list Frame.t) :
  exists timeline : list Item.t,
    build_action_timeline analyzed_frames = Returned timeline /\
    map snd (scan_pairs timeline)
      = flat_map (fun frame => default [] (Frame.detected_actions frame)
                               ++ (default [] (Frame.ui_elements frame)
                                   ++ default [] (Frame.text_content frame)))
          analyzed_frames /\
    Forall (fun item => phrases item <> []) timeline /\
    (length timeline <= length analyzed_frames)%nat.
Proof.
  destruct (build_action_timeline_loop analyzed_frames []) as (tl & Hrun & Hall).
  exists tl. split; [exact Hrun |]. clear Hrun.
  revert tl Hall. induction analyzed_frames as [|frame frames IH]; intros tl Hall.
  - inversion Hall. repeat split; constructor.
  - cbn [List.filter] in Hall.
    destruct (has_evidence frame) eqn:E.
    + inversion Hall as [|? item ? tl' Hentry Hrest]; subst.
      destruct (IH tl' Hrest) as (Hphr & Hne & Hlen).
      destruct Hentry as (_ & _ & Ha & Hu & Ht).
      assert (phrases item
              = default [] (Frame.detected_actions frame)
                ++ (default [] (Frame.ui_elements frame)
                    ++ default [] (Frame.text_content frame))) as Hitem.
      { unfold phrases. rewrite Ha, Hu, Ht. reflexivity. }
      split; [| split].
      * cbn [scan_pairs flat_map]. rewrite map_app, map_map. cbn [snd].
        rewrite map_id. fold (scan_pairs tl'). rewrite Hphr, Hitem. reflexivity.
      * constructor; [| exact Hne]. rewrite Hitem.
        unfold has_evidence in E. rewrite !get_default in E.
        destruct (default [] (Frame.detected_actions frame)); [| discriminate].
        destruct (default [] (Frame.ui_elements frame)); [| discriminate].
        destruct (default [] (Frame.text_content frame)); [discriminate | discriminate].
      * simpl. lia.
    + destruct (IH tl Hall) as (Hphr & Hne & Hlen).
      split; [| split; [exact Hne | simpl; lia]].
      rewrite Hphr. cbn [flat_map].
      unfold has_evidence in E. rewrite !get_default in E.
      destruct (default [] (Frame.detected_actions frame)); [| discriminate].
      destruct (default [] (Frame.ui_elements frame)); [| discriminate].
      destruct (default [] (Frame.text_content frame)); [reflexivity | discriminate].
Qed.

(** ** Texts and words *)

Lemma append_nil_r (s : string) : s +:+ "" = s.
Proof. induction s as [|c s IH]; [reflexivity |]. change (String c (s +:+ "") = String c s). congruence. Qed.

Lemma append_assoc (a b c : string) : (a +:+ b) +:+ c = a +:+ (b +:+ c).
Proof.
  induction a as [|x a IH]; [reflexivity |].
  change (String x ((a +:+ b) +:+ c) = String x (a +:+ (b +:+ c))). congruence.
Qed.

Lemma append_cons (x : ascii) (a b : string) : String x a +:+ b = String x (a +:+ b).
Proof. reflexivity. Qed.

Lemma all_chars_append (p : ascii -> bool) (a b : string) :
  all_chars p (a +:+ b) = all_chars p a && all_chars p b.
Proof.
  induction a as [|x a IH]; [reflexivity |].
  rewrite append_cons. simpl. rewrite IH, andb_assoc. reflexivity.
Qed.

Lemma lower_append (a b : string) : Str.lower (a +:+ b) = Str.lower a +:+ Str.lower b.
Proof.
  induction a as [|x a IH]; [reflexivity |].
  rewrite append_cons. simpl. rewrite IH. reflexivity.
Qed.

Lemma substring_lower (w s : string) :
  substring w s -> substring (Str.lower w) (Str.lower s).
Proof.
  intros (before & after & ->). exists (Str.lower before), (Str.lower after).
  rewrite !lower_append. reflexivity.
Qed.

Lemma split_from_word (w cur rest : string) :
  all_chars (fun c => negb (Str.is_space c)) w = true ->
  Str.split_from cur (w +:+ rest) = Str.split_from (cur +:+ w) rest.
Proof.
  revert cur; induction w as [|c w IH]; intros cur Hw.
  - rewrite append_nil_r. reflexivity.
  - simpl in Hw. apply andb_true_iff in Hw as [Hc Hw].
    rewrite append_cons. cbn [Str.split_from].
    apply negb_true_iff in Hc. rewrite Hc.
    rewrite (IH _ Hw), append_assoc. reflexivity.
Qed.

Lemma split_from_tokens (cur s : string) :
  all_chars (fun c => negb (Str.is_space c)) cur = true ->
  Forall is_token (Str.split_from cur s).
Proof.
  revert cur; induction s as [|c s IH]; intros cur Hcur; cbn [Str.split_from].
  - destruct (String.eqb_spec cur ""); constructor; [split; assumption | constructor].
  - destruct (Str.is_space c) eqn:Ec.
    + apply Forall_app. split; [| apply IH; reflexivity].
      destruct (String.eqb_spec cur ""); constructor; [split; assumption | constructor].
    + apply IH. rewrite all_chars_append, Hcur. simpl. rewrite Ec. reflexivity.
Qed.

Lemma split_tokens (s : string) : Forall is_token (Str.split s).
Proof. apply split_from_tokens. reflexivity. Qed.

Lemma split_join (ws : list string) :
  Forall is_token ws -> Str.split (join " " ws) = ws.
Proof.
  induction 1 as [|w ws [Hne Hw] Hws IH]; [reflexivity |].
  destruct ws as [|w' ws].
  - unfold Str.split. cbn [join].
    rewrite <- (append_nil_r w) at 1. rewrite (split_from_word w "" "" Hw).
    change ("" +:+ w) with w. cbn [Str.split_from].
    destruct (String.eqb_spec w ""); [contradiction | reflexivity].
  - unfold Str.split. change (join " " (w :: w' :: ws))
      with (w +:+ " " +:+ join " " (w' :: ws)).
    rewrite (split_from_word w "" _ Hw).
    change ("" +:+ w) with w.
    change (" " +:+ join " " (w' :: ws)) with (String " " (join " " (w' :: ws))).
    cbn [Str.split_from]. change (Str.is_space " ") with true. cbv iota.
    destruct (String.eqb_spec w ""); [contradiction |].
    fold (Str.split (join " " (w' :: ws))). rewrite IH. reflexivity.
Qed.

(** The words of a text survive being joined by single spaces and
    split again; so do any words that are non-empty and free of
    whitespace. *)
Theorem split_join_round_trip (s : string) (ws : list string) :
  Str.split (join " " (Str.split s)) = Str.split s /\
  (Forall is_token ws -> Str.split (join " " ws) = ws).
Proof.
  split; [apply split_join, split_tokens | apply split_join].
Qed.

Lemma split_join_round_trip_witness :
  Str.split (join " " ["click"; "the"; "button"]) = ["click"; "the"; "button"].
Proof.
  apply (split_join_round_trip "" ["click"; "the"; "button"]).
  repeat constructor; discriminate.
Defined.

(** ** The keyword extractors *)

Lemma index_position (x : string) (l : list string) :
  index x l = match position x l with
              | Some i => Returned i
              | None => Raised "ValueError"
              end.
Proof.
  induction l as [|y l IH]; simpl; [reflexivity |].
  destruct (String.eqb y x); [reflexivity |].
  rewrite IH. destruct (position x l); reflexivity.
Qed.

Lemma position_spec (x : string) (l : list string) (i : nat) :
  position x l = Some i <->
  l !! i = Some x /\ forall j : nat, (j < i)%nat -> l !! j <> Some x.
Proof.
  revert i; induction l as [|y l IH]; intros i; simpl.
  - split; [discriminate | intros [H _]; destruct i; discriminate H].
  - destruct (String.eqb_spec y x) as [-> | Hne].
    + split.
      * intros H. injection H as <-. split; [reflexivity | intros j Hj; lia].
      * intros [Hi Hfirst]. destruct i as [|i]; [reflexivity |].
        exfalso. apply (Hfirst O); [lia | reflexivity].
    + destruct i as [|i].
      * split.
        -- destruct (position x l); discriminate.
        -- intros [Hi _]. simpl in Hi. congruence.
      * specialize (IH i). split.
        -- intros H. destruct (position x l) as [i' |] eqn:E; [| discriminate].
           injection H as ->. destruct IH as [[Hi Hfirst] _]; [reflexivity |].
           split; [exact Hi |]. intros [|j] Hj; simpl; [congruence | apply Hfirst; lia].
        -- intros [Hi Hfirst]. destruct IH as [_ IH].
           rewrite IH; [reflexivity |].
           split; [exact Hi |]. intros j Hj. apply (Hfirst (S j)). lia.
Qed.

Lemma position_none (x : string) (l : list string) :
  position x l = None <-> ~ x ∈ l.
Proof.
  induction l as [|y l IH]; simpl.
  - split; [intros _ H; inversion H | reflexivity].
  - destruct (String.eqb_spec y x) as [-> | Hne].
    + split; [discriminate | intros H; exfalso; apply H; left].
    + destruct (position x l) eqn:E; simpl.
      * split; [discriminate |]. intros H. exfalso. apply H. right.
        destruct (decide (x ∈ l)) as [Hin | Hnin]; [exact Hin |].
        apply IH in Hnin. discriminate.
      * split; [| reflexivity]. intros _ H.
        apply elem_of_cons in H as [-> | Hin]; [congruence |].
        destruct IH as [IH _]. apply (IH eq_refl), Hin.
Qed.

Section Window.
Variable words : list string.

Lemma check_action_keyword_returns (actions : list string) (keyword : string) :
  check_action_keyword words actions keyword
  = Returned (actions ++ keyword_phrase 1 3 words keyword).
Proof.
  unfold check_action_keyword, keyword_phrase. rewrite index_position.
  destruct (position keyword words) as [[|i] |] eqn:E.
  - rewrite app_nil_r. destruct (bool_decide _); reflexivity.
  - rewrite bool_decide_true; [| destruct (decide (keyword ∈ words)) as [H | H];
      [exact H | apply position_none in H; congruence]].
    cbn. unfold clip_start.
    replace (Z.to_nat (Z.max 0 (Z.of_nat (S i) - 1))) with (S i - 1)%nat by lia.
    reflexivity.
  - rewrite bool_decide_false by (apply position_none, E).
    rewrite app_nil_r. reflexivity.
Qed.

Lemma check_ui_keyword_returns (elements : list string) (keyword : string) :
  check_ui_keyword words elements keyword
  = Returned (elements ++ keyword_phrase 2 2 words keyword).
Proof.
  unfold check_ui_keyword, keyword_phrase. rewrite index_position.
  destruct (position keyword words) as [[|i] |] eqn:E.
  - rewrite app_nil_r. destruct (bool_decide _); reflexivity.
  - rewrite bool_decide_true; [| destruct (decide (keyword ∈ words)) as [H | H];
      [exact H | apply position_none in H; congruence]].
    cbn. unfold clip_start.
    replace (Z.to_nat (Z.max 0 (Z.of_nat (S i) - 2))) with (S i - 2)%nat by lia.
    reflexivity.
  - rewrite bool_decide_false by (apply position_none, E).
    rewrite app_nil_r. reflexivity.
Qed.

Lemma keyword_loop (body : list string -> string -> outcome (list string)) (back fwd : nat) :
  (forall acc keyword,
     body acc keyword = Returned (acc ++ keyword_phrase back fwd words keyword)) ->
  forall (keywords acc : list string),
    for_each body keywords acc
    = Returned (acc ++ flat_map (keyword_phrase back fwd words) keywords).
Proof.
  intros Hbody keywords; induction keywords as [|k keywords IH]; intros acc; simpl.
  - rewrite app_nil_r. reflexivity.
  - rewrite Hbody. cbn [mbind outcome_bind]. rewrite IH, <- app_assoc. reflexivity.
Qed.

Lemma keyword_phrases_spec (back fwd : nat) (keywords : list string) (phrase : string) :
  In phrase (flat_map (keyword_phrase back fwd words) keywords) <->
  exists (keyword : string) (idx : nat),
    In keyword keywords /\ (1 <= idx)%nat /\
    words !! idx = Some keyword /\
    (forall j : nat, (j < idx)%nat -> words !! j <> Some keyword) /\
    phrase = join " " (slice words (idx - back) (idx + fwd)).
Proof.
  rewrite in_flat_map. unfold keyword_phrase. split.
  - intros (keyword & Hk & Hin).
    destruct (position keyword words) as [[|i] |] eqn:E; try contradiction.
    destruct Hin as [<- | []].
    apply position_spec in E as [Hi Hfirst].
    exists keyword, (S i). repeat split; auto. lia.
  - intros (keyword & idx & Hk & Hidx & Hi & Hfirst & ->).
    exists keyword. split; [exact Hk |].
    assert (position keyword words = Some idx) as -> by (apply position_spec; auto).
    destruct idx as [|i]; [lia |]. left. reflexivity.
Qed.

Lemma keyword_phrases_length (back fwd : nat) (keywords : list string) :
  (length (flat_map (keyword_phrase back fwd words) keywords) <= length keywords)%nat.
Proof.
  induction keywords as [|k keywords IH]; simpl; [lia |].
  rewrite length_app. unfold keyword_phrase at 1.
  destruct (position k words) as [[|i] |]; simpl; lia.
Qed.

End Window.

Lemma extract_actions_returns (description : string) :
  extract_actions description
  = Returned (flat_map (keyword_phrase 1 3 (Str.split (Str.lower description)))
                Keywords.action_keywords).
Proof.
  unfold extract_actions.
  rewrite (keyword_loop _ _ 1 3 (check_action_keyword_returns _)). reflexivity.
Qed.

Lemma extract_ui_elements_returns (description : string) :
  extract_ui_elements description
  = Returned (flat_map (keyword_phrase 2 2 (Str.split (Str.lower description)))
                Keywords.ui_keywords).
Proof.
  unfold extract_ui_elements.
  rewrite (keyword_loop _ _ 2 2 (check_ui_keyword_returns _)). reflexivity.
Qed.

(** X13: [extract_actions] returns, for each action keyword whose first
    occurrence among the lower-cased words of the description is not the
    first word, the phrase made of the word before it, the keyword and the
    two words after it; nothing else, and at most one phrase per keyword. *)
Theorem extract_actions_phrases (description : string) :
  let words := Str.split (Str.lower description) in
  exists phrases : list string,
    extract_actions description = Returned phrases /\
    (length phrases <= 10)%nat /\
    forall phrase : string,
      In phrase phrases <->
      exists (keyword : string) (idx : nat),
        In keyword Keywords.action_keywords /\ (1 <= idx)%nat /\
        words !! idx = Some keyword /\
        (forall j : nat, (j < idx)%nat -> words !! j <> Some keyword) /\
        phrase = join " " (slice words (idx - 1) (idx + 3)).
Proof.
  intros words. eexists. split; [| split].
  - unfold extract_actions.
    apply (keyword_loop words _ 1 3 (check_action_keyword_returns words)).
  - apply (keyword_phrases_length words 1 3 Keywords.action_keywords).
  - intros phrase. apply keyword_phrases_spec.
Qed.

(** X14: [extract_ui_elements] returns, for each UI keyword whose first
    occurrence among the lower-cased words of the description is not the
    first word, the phrase made of the (up to) two words before it, the
    keyword and the word after it; nothing else, and at most one phrase per
    keyword. *)
Theorem extract_ui_elements_phrases (description : string) :
  let words := Str.split (Str.lower description) in
  exists phrases : list string,
    extract_ui_elements description = Returned phrases /\
    (length phrases <= 10)%nat /\
    forall phrase : string,
      In phrase phrases <->
      exists (keyword : string) (idx : nat),
        In keyword Keywords.ui_keywords /\ (1 <= idx)%nat /\
        words !! idx = Some keyword /\
        (forall j : nat, (j < idx)%nat -> words !! j <> Some keyword) /\
        phrase = join " " (slice words (idx - 2) (idx + 2)).
Proof.
  intros words. eexists. split; [| split].
  - unfold extract_ui_elements.
    apply (keyword_loop words _ 2 2 (check_ui_keyword_returns words)).
  - apply (keyword_phrases_length words 2 2 Keywords.ui_keywords).
  - intros phrase. apply keyword_phrases_spec.
Qed.

Lemma substring_join (sep w : string) (ws : list string) :
  In w ws -> substring w (join sep ws).
Proof.
  induction ws as [|x ws IH]; intros Hin; [contradiction |].
  destruct ws as [|y ws].
  - destruct Hin as [-> | []]. exists "", "". cbn [join]. rewrite append_nil_r. reflexivity.
  - change (join sep (x :: y :: ws)) with (x +:+ sep +:+ join sep (y :: ws)).
    destruct Hin as [-> | Hin].
    + exists "", (sep +:+ join sep (y :: ws)). reflexivity.
    + destruct (IH Hin) as (before & after & ->).
      exists (x +:+ sep +:+ before), after. rewrite !append_assoc. reflexivity.
Qed.

Lemma window_shape (words : list string) (lo i n : nat) (keyword : string) :
  Forall is_token words ->
  words !! i = Some keyword ->
  (lo <= i < lo + n)%nat ->
  let phrase := join " " (slice words lo (lo + n)) in
  Str.split phrase !! (i - lo)%nat = Some keyword /\
  (i - lo < length (Str.split phrase) <= n)%nat /\
  substring keyword phrase.
Proof.
  intros Htok Hi Hrange phrase.
  assert (slice words lo (lo + n) = take n (drop lo words)) as Hslice.
  { unfold slice. f_equal. lia. }
  assert (Str.split phrase = take n (drop lo words)) as ->.
  { unfold phrase. rewrite Hslice. apply split_join, Forall_take, Forall_drop, Htok. }
  assert (take n (drop lo words) !! (i - lo)%nat = Some keyword) as Hk.
  { rewrite lookup_take_lt by lia. rewrite lookup_drop.
    replace (lo + (i - lo))%nat with i by lia. exact Hi. }
  split; [exact Hk |]. split.
  - split; [eapply lookup_lt_Some, Hk | rewrite length_take; lia].
  - unfold phrase. rewrite Hslice. apply substring_join.
    apply list_elem_of_In. eapply list_elem_of_lookup_2, Hk.
Qed.

(** X15: every phrase of [extract_actions] has two to four words, of which
    the second is an action keyword; the matcher finds that keyword in the
    phrase as an action word, unless it is [close], which the matcher's
    vocabulary lacks. *)
Theorem extracted_action_phrase_shape (description : string) :
  exists phrases : list string,
    extract_actions description = Returned phrases /\
    Forall (fun phrase =>
              exists keyword : string,
                In keyword Keywords.action_keywords /\
                Str.split phrase !! 1%nat = Some keyword /\
                (2 <= length (Str.split phrase) <= 4)%nat /\
                (keyword <> "close" -> keyword ∈ action_tokens phrase))
      phrases.
Proof.
  eexists. split; [apply extract_actions_returns |].
  apply List.Forall_forall. intros phrase Hin.
  apply keyword_phrases_spec in Hin as (keyword & idx & Hk & Hidx & Hi & _ & ->).
  destruct (window_shape (Str.split (Str.lower description)) (idx - 1) idx 4 keyword)
    as (Hsecond & Hlen & Hsub); [apply split_tokens | exact Hi | lia |].
  replace (idx - 1 + 4)%nat with (idx + 3)%nat in * by lia.
  replace (idx - (idx - 1))%nat with 1%nat in * by lia.
  exists keyword. split; [exact Hk |]. split; [exact Hsecond |]. split; [lia |].
  intros Hclose. apply action_tokens_spec.
  apply substring_lower in Hsub.
  simpl in Hk.
  repeat (destruct Hk as [<- | Hk];
          [first [ contradiction
                 | split; [simpl; tauto | exact Hsub] ] |]).
  contradiction.
Qed.

(** X16: every phrase of [extract_ui_elements] has two to four words, and
    its second or third word is a UI keyword. *)
Theorem extracted_ui_phrase_shape (description : string) :
  exists phrases : list string,
    extract_ui_elements description = Returned phrases /\
    Forall (fun phrase =>
              exists keyword : string,
                In keyword Keywords.ui_keywords /\
                (Str.split phrase !! 1%nat = Some keyword
                 \/ Str.split phrase !! 2%nat = Some keyword) /\
                (2 <= length (Str.split phrase) <= 4)%nat /\
                substring keyword phrase)
      phrases.
Proof.
  eexists. split; [apply extract_ui_elements_returns |].
  apply List.Forall_forall. intros phrase Hin.
  apply keyword_phrases_spec in Hin as (keyword & idx & Hk & Hidx & Hi & _ & ->).
  destruct (window_shape (Str.split (Str.lower description)) (idx - 2) idx
              (idx + 2 - (idx - 2)) keyword)
    as (Hpos & Hlen & Hsub); [apply split_tokens | exact Hi | lia |].
  replace (idx - 2 + (idx + 2 - (idx - 2)))%nat with (idx + 2)%nat in * by lia.
  exists keyword. split; [exact Hk |].
  destruct (decide (idx = 1%nat)) as [-> | Hne].
  - change (1 - (1 - 2))%nat with 1%nat in *.
    split; [left; exact Hpos |]. split; [lia | exact Hsub].
  - replace (idx - (idx - 2))%nat with 2%nat in * by lia.
    split; [right; exact Hpos |]. split; [lia | exact Hsub].
Qed.

Lemma keyword_phrase_skips_first_word (back fwd : nat) (w : string) (rest : list string)
    (keywords : list string) :
  (forall keyword : string, In keyword keywords -> ~ In keyword rest) ->
  flat_map (keyword_phrase back fwd (w :: rest)) keywords = [].
Proof.
  intros Hrest. induction keywords as [|k keywords IH]; [reflexivity |].
  simpl. rewrite IH by (intros k' Hk'; apply Hrest; right; exact Hk').
  rewrite app_nil_r. unfold keyword_phrase.
  destruct (position k (w :: rest)) as [[|i] |] eqn:E; try reflexivity.
  exfalso. apply position_spec in E as [Hi _]. simpl in Hi.
  apply (Hrest k); [left; reflexivity |].
  apply list_elem_of_In. eapply list_elem_of_lookup_2, Hi.
Qed.

(** X17: a keyword that stands only as the first word of the description
    is not reported: when no keyword occurs after the first word, both
    extractors return the empty list. *)
Theorem keyword_as_first_word_is_not_extracted (description w : string)
    (rest : list string) :
  Str.split (Str.lower description) = w :: rest ->
  ((forall keyword, In keyword Keywords.action_keywords -> ~ In keyword rest) ->
   extract_actions description = Returned []) /\
  ((forall keyword, In keyword Keywords.ui_keywords -> ~ In keyword rest) ->
   extract_ui_elements description = Returned []).
Proof.
  intros Hwords. split; intros Hrest.
  - unfold extract_actions. rewrite Hwords.
    rewrite (keyword_loop _ _ 1 3 (check_action_keyword_returns _)).
    rewrite keyword_phrase_skips_first_word by exact Hrest. reflexivity.
  - unfold extract_ui_elements. rewrite Hwords.
    rewrite (keyword_loop _ _ 2 2 (check_ui_keyword_returns _)).
    rewrite keyword_phrase_skips_first_word by exact Hrest. reflexivity.
Qed.

(** The description [Click here] starts with its only action keyword. *)
Lemma keyword_as_first_word_is_not_extracted_witness :
  extract_actions "Click here" = Returned [].
Proof.
  apply (keyword_as_first_word_is_not_extracted "Click here" "click" ["here"]).
  - reflexivity.
  - intros keyword Hk [<- | []]. simpl in Hk.
    repeat (destruct Hk as [Hk | Hk]; [discriminate Hk |]). exact Hk.
Defined.

(** ** Quoted texts and capitalized phrases *)

Lemma is_quote_spec (c : ascii) : Re.is_quote c = true -> String c "" = double_quote.
Proof.
  unfold Re.is_quote, Str.code, double_quote. intros H.
  apply Nat.eqb_eq in H. rewrite <- H, ascii_nat_embedding. reflexivity.
Qed.

Lemma findall_quoted_from_spec (s : string) (inside : option string) (q : string) :
  In q (Re.findall_quoted_from inside s) ->
  (exists a b : string,
     s = a +:+ double_quote +:+ q +:+ double_quote +:+ b /\
     all_chars (fun c => negb (Re.is_quote c)) q = true)
  \/ (exists acc q' b : string,
        inside = Some acc /\ q = acc +:+ q' /\
        s = q' +:+ double_quote +:+ b /\
        all_chars (fun c => negb (Re.is_quote c)) q' = true).
Proof.
  revert inside; induction s as [|c s IH]; intros inside Hin; [destruct Hin |].
  cbn [Re.findall_quoted_from] in Hin.
  assert (forall inside',
            In q (Re.findall_quoted_from inside' s) ->
            (inside' = None \/ Re.is_quote c = false) ->
            (exists a b : string,
               String c s = a +:+ double_quote +:+ q +:+ double_quote +:+ b /\
               all_chars (fun c => negb (Re.is_quote c)) q = true)
            \/ (exists q' b : string,
                  (forall acc', inside' = Some acc' -> q = acc' +:+ q') /\
                  inside' <> None /\
                  String c s = String c q' +:+ double_quote +:+ b /\
                  all_chars (fun c => negb (Re.is_quote c)) (String c q') = true)) as Hstep.
  { intros inside' Hin' Hcase.
    destruct (IH inside' Hin') as [(a & b & -> & Hq) | (acc & q' & b & -> & -> & -> & Hq')].
    - left. exists (String c a), b. split; [reflexivity | exact Hq].
    - right. destruct Hcase as [Hn | Hc]; [discriminate |].
      exists q', b. repeat split; try discriminate.
      + intros acc' Hacc. injection Hacc as <-. reflexivity.
      + simpl. rewrite Hc, Hq'. reflexivity. }
  destruct inside as [acc |]; destruct (Re.is_quote c) eqn:Ec.
  - destruct Hin as [<- | Hin].
    + right. exists acc, "", s. rewrite append_nil_r.
      repeat split. rewrite <- (is_quote_spec c Ec). reflexivity.
    + destruct (IH None Hin) as [(a & b & -> & Hq) | (acc' & q' & b & Hn & _)];
        [| discriminate].
      left. exists (String c a), b. split; [reflexivity | exact Hq].
  - destruct (Hstep _ Hin (or_intror eq_refl))
      as [Hleft | (q' & b & Hq & _ & Hs & Hall)]; [left; exact Hleft |].
    right. exists acc, (String c q'), b.
    split; [reflexivity |]. split; [| split; [exact Hs | exact Hall]].
    rewrite (Hq _ eq_refl), append_assoc. reflexivity.
  - destruct (IH (Some "") Hin) as [(a & b & -> & Hq) | (acc' & q' & b & Hacc & -> & -> & Hq')].
    + left. exists (String c a), b. split; [reflexivity | exact Hq].
    + injection Hacc as <-. left. exists "", b.
      rewrite <- (is_quote_spec c Ec). split; [reflexivity | exact Hq'].
  - destruct (Hstep _ Hin (or_introl eq_refl))
      as [Hleft | (q' & b & _ & Hne & _)]; [left; exact Hleft | contradiction].
Qed.

Lemma span_spec (p : ascii -> bool) (s a r : string) :
  Re.span p s = (a, r) -> s = a +:+ r /\ all_chars p a = true.
Proof.
  revert a r; induction s as [|c s IH]; intros a r H; simpl in H.
  - injection H as <- <-. auto.
  - destruct (p c) eqn:Ec.
    + destruct (Re.span p s) as [a' r'] eqn:E. injection H as <- <-.
      destruct (IH a' r' eq_refl) as [-> Ha]. simpl. rewrite Ec, Ha. auto.
    + injection H as <- <-. auto.
Qed.

Lemma all_chars_impl (p p' : ascii -> bool) (s : string) :
  (forall c, p c = true -> p' c = true) -> all_chars p s = true -> all_chars p' s = true.
Proof.
  intros Hpp'. induction s as [|c s IH]; simpl; [reflexivity |].
  intros H. apply andb_true_iff in H as [Hc Hs]. rewrite (Hpp' c Hc), (IH Hs). reflexivity.
Qed.

Lemma match_word_spec (s w r : string) :
  Re.match_word s = Some (w, r) ->
  s = w +:+ r /\
  exists (c : ascii) (a : string),
    w = String c a /\ Str.is_upper c = true /\ a <> "" /\ all_chars Str.is_lower a = true.
Proof.
  destruct s as [|c s]; simpl; [discriminate |].
  destruct (Str.is_upper c) eqn:Ec; [| discriminate].
  destruct (Re.span Str.is_lower s) as [a r'] eqn:E.
  destruct (String.eqb_spec a ""); [discriminate |].
  intros H. injection H as <- <-.
  apply span_spec in E as [-> Ha]. split; [reflexivity |].
  exists c, a. auto.
Qed.

Lemma letter_or_space_of_lower (s : string) :
  all_chars Str.is_lower s = true -> all_chars letter_or_space s = true.
Proof.
  apply all_chars_impl. intros x Hx. unfold letter_or_space. rewrite Hx.
  destruct (Str.is_upper x); reflexivity.
Qed.

Lemma letter_or_space_of_space (s : string) :
  all_chars Str.is_space s = true -> all_chars letter_or_space s = true.
Proof.
  apply all_chars_impl. intros x Hx. unfold letter_or_space. rewrite Hx.
  apply orb_true_r.
Qed.

Lemma match_more_spec (fuel : nat) (s t r : string) :
  Re.match_more fuel s = Some (t, r) ->
  s = t +:+ r /\ all_chars letter_or_space t = true.
Proof.
  revert s t r; induction fuel as [|fuel IH]; intros s t r;
    cbn [Re.match_more].
  - destruct (Re.boundary_after_word s); [| discriminate].
    intros H. injection H as <- <-. auto.
  - assert (forall o, (if Re.boundary_after_word s then Some ("", s) else None) = o ->
                      o = Some (t, r) -> s = t +:+ r /\ all_chars letter_or_space t = true)
      as Hstop.
    { intros o <-. destruct (Re.boundary_after_word s); [| discriminate].
      intros H. injection H as <- <-. auto. }
    destruct (Re.span Str.is_space s) as [ws r1] eqn:Ews.
    destruct (String.eqb ws ""); [apply (Hstop _ eq_refl) |].
    destruct (Re.match_word r1) as [[w r2] |] eqn:Ew; [| apply (Hstop _ eq_refl)].
    destruct (Re.match_more fuel r2) as [[t' r3] |] eqn:Em; [| apply (Hstop _ eq_refl)].
    intros H. injection H as <- <-.
    apply span_spec in Ews as [-> Hws].
    apply match_word_spec in Ew as [-> (c & a & -> & Hc & _ & Ha)].
    apply IH in Em as [-> Ht'].
    split; [rewrite !append_assoc; reflexivity |].
    rewrite !all_chars_append, Ht', andb_true_r. apply andb_true_iff. split.
    + apply letter_or_space_of_space, Hws.
    + cbn [all_chars]. apply andb_true_iff. split.
      * unfold letter_or_space. rewrite Hc. reflexivity.
      * apply letter_or_space_of_lower, Ha.
Qed.

Lemma match_capitalized_spec (s m : string) :
  Re.match_capitalized s = Some m ->
  (exists r : string, s = m +:+ r) /\
  (exists (c : ascii) (a : string), m = String c a /\ Str.is_upper c = true) /\
  all_chars letter_or_space m = true /\
  (2 <= String.length m)%nat.
Proof.
  unfold Re.match_capitalized.
  destruct (Re.match_word s) as [[w r] |] eqn:Ew; [| discriminate].
  destruct (Re.match_more (String.length r) r) as [[t r'] |] eqn:Em; [| discriminate].
  intros H. injection H as <-.
  apply match_word_spec in Ew as [-> (c & a & -> & Hc & Hne & Ha)].
  apply match_more_spec in Em as [-> Ht].
  split; [exists r'; rewrite append_assoc; reflexivity |].
  split; [exists c, (a +:+ t); auto |].
  split.
  - rewrite append_cons. cbn [all_chars]. rewrite all_chars_append, Ht, andb_true_r.
    apply andb_true_iff. split.
    + unfold letter_or_space. rewrite Hc. reflexivity.
    + apply letter_or_space_of_lower, Ha.
  - destruct a as [|x a]; [contradiction |]. simpl. lia.
Qed.

Lemma findall_capitalized_from_spec (s : string) (prev : option ascii) (skip : nat)
    (m : string) :
  In m (Re.findall_capitalized_from prev skip s) ->
  substring m s /\
  (exists (c : ascii) (a : string), m = String c a /\ Str.is_upper c = true) /\
  all_chars letter_or_space m = true /\
  (2 <= String.length m)%nat.
Proof.
  revert prev skip; induction s as [|c s IH]; intros prev skip Hin; [destruct Hin |].
  cbn [Re.findall_capitalized_from] in Hin.
  assert (forall prev' skip',
            In m (Re.findall_capitalized_from prev' skip' s) ->
            substring m (String c s) /\
            (exists (c : ascii) (a : string), m = String c a /\ Str.is_upper c = true) /\
            all_chars letter_or_space m = true /\
            (2 <= String.length m)%nat) as Hrest.
  { intros prev' skip' Hin'.
    destruct (IH prev' skip' Hin') as ((before & after & ->) & Hm).
    split; [exists (String c before), after; reflexivity | exact Hm]. }
  destruct skip as [|k]; [| eapply Hrest, Hin].
  destruct (if match prev with
               | Some p => negb (Str.is_word p)
               | None => true
               end
            then Re.match_capitalized (String c s) else None) as [m' |] eqn:E;
    [| eapply Hrest, Hin].
  destruct Hin as [<- | Hin]; [| eapply Hrest, Hin].
  destruct (match prev with Some p => negb (Str.is_word p) | None => true end);
    [| discriminate].
  apply match_capitalized_spec in E as ((r & Hr) & Hm).
  split; [exists "", r; exact Hr | exact Hm].
Qed.

(** X18: [extract_text_content] never invents text: each item occurs in
    the description as it stands; it is either a text found between two
    double quotes and free of double quotes, or a phrase of letters and
    whitespace that starts with an upper-case letter and has at least two
    characters. *)
Theorem extract_text_content_is_verbatim (description : string) :
  Forall (fun text =>
            substring text description /\
            ((substring (double_quote +:+ text +:+ double_quote) description /\
              all_chars (fun c => negb (Re.is_quote c)) text = true)
             \/ ((exists (c : ascii) (a : string),
                    text = String c a /\ Str.is_upper c = true) /\
                 all_chars letter_or_space text = true /\
                 (2 <= String.length text)%nat)))
    (extract_text_content description).
Proof.
  unfold extract_text_content. apply Forall_app. split; apply List.Forall_forall.
  - intros q Hq. unfold Re.findall_quoted in Hq.
    apply findall_quoted_from_spec in Hq
      as [(a & b & Hs & Hall) | (acc & _ & _ & Hn & _)]; [| discriminate].
    split.
    + exists (a +:+ double_quote), (double_quote +:+ b).
      rewrite Hs, !append_assoc. reflexivity.
    + left. split; [| exact Hall].
      exists a, b. rewrite Hs, !append_assoc. reflexivity.
  - intros m Hm. unfold Re.findall_capitalized in Hm.
    apply findall_capitalized_from_spec in Hm as (Hsub & Hm).
    split; [exact Hsub | right; exact Hm].
Qed.

(** X19: every object of [extract_objects] occurs in the lower-cased text:
    it is a UI noun found there, or the lower-casing of an item of
    [extract_text_content]. *)
Theorem extract_objects_occur_in_text (text : string) :
  extract_objects text
    = words_in Vocabulary.ui_elements (Str.lower text)
      ++ map Str.lower (extract_text_content text) /\
  Forall (fun object => substring object (Str.lower text)) (extract_objects text).
Proof.
  assert (extract_objects text
          = words_in Vocabulary.ui_elements (Str.lower text)
            ++ map Str.lower (extract_text_content text)) as Heq.
  { unfold extract_objects, extract_text_content. rewrite map_app, app_assoc. reflexivity. }
  split; [exact Heq |]. rewrite Heq.
  apply Forall_app. split; apply List.Forall_forall.
  - intros w Hw. unfold words_in in Hw. apply filter_In in Hw as [_ Hw].
    apply contains_spec, Hw.
  - intros o Ho. apply in_map_iff in Ho as (t & <- & Ht).
    apply substring_lower.
    unfold extract_text_content in Ht. apply in_app_or in Ht as [Hq | Hm].
    + unfold Re.findall_quoted in Hq.
      apply findall_quoted_from_spec in Hq
        as [(a & b & Hs & _) | (acc & _ & _ & Hn & _)]; [| discriminate].
      exists (a +:+ double_quote), (double_quote +:+ b).
      rewrite Hs, !append_assoc. reflexivity.
    + unfold Re.findall_capitalized in Hm.
      apply findall_capitalized_from_spec in Hm as (Hsub & _). exact Hsub.
Qed.

(** ** The report *)

(** X20: in both reports the note of a deviation found by the matcher is
    [Partial match] with the best score when that score is positive, and
    [Step skipped in video] when it is 0: the categories [not_visible] and
    [altered] never show in the table.  The note of a step observed with a
    positive threshold gives the formatted timestamp of the best match's
    timeline entry (00:00 when the entry has none). *)
Theorem report_notes_of_a_match_result (format_2f : Q -> string) (step : Step.t)
    (timeline : list Item.t) (threshold : Q) :
  exists r : Result.t,
    match_step_with_timeline step timeline threshold = Returned r /\
    (Result.result r = "deviation" -> 0 < Result.best_score r ->
     notes_of format_2f r
     = "Partial match (score: " +:+ format_2f (Result.best_score r) +:+ ")") /\
    (Result.result r = "deviation" -> Result.best_score r == 0 ->
     notes_of format_2f r = "Step skipped in video") /\
    (Result.result r = "observed" -> 0 < threshold ->
     exists c : Candidate.t,
       Result.best_match r = Some c /\
       let timestamp :=
         default "00:00" (Item.timestamp_formatted (Candidate.timeline_item c)) in
       notes_of format_2f r
       = if String.eqb timestamp "" then "-" else "Observed at " +:+ timestamp).
Proof.
  destruct (match_step_returns step timeline threshold)
    as (r & Hr & Hbest & _ & Hm & Hres & _).
  exists r. split; [exact Hr |].
  assert (Result.result r = "deviation" -> Result.is_matched r = false) as Hdev.
  { intros H. destruct (Result.is_matched r); [rewrite H in Hres; discriminate | reflexivity]. }
  assert (Result.result r = "observed" -> Result.is_matched r = true) as Hobs.
  { intros H. destruct (Result.is_matched r); [reflexivity | rewrite H in Hres; discriminate]. }
  pose proof (fold_track_recorded (planned_action_of step) (scan_pairs timeline) (None, 0)
                (or_introl (conj eq_refl eq_refl))) as Hrec.
  destruct (fold_track_attained (planned_action_of step) (scan_pairs timeline) (None, 0))
    as [Hkeep | ([it ph] & _ & Hfold)];
    rewrite <- Hbest in *; simpl in *.
  - injection Hkeep as Hnone Hzero.
    split; [intros _ Hpos; rewrite Hzero in Hpos; lra |].
    split.
    + intros Hd _. unfold notes_of, categorize_deviation_type.
      rewrite (Hdev Hd), Hnone, Hzero. reflexivity.
    + intros Ho Hthr. specialize (Hobs Ho). rewrite Hobs in Hm. symmetry in Hm.
      apply geb_spec in Hm. rewrite Hzero in Hm. lra.
  - injection Hfold as Hc Hs.
    destruct Hrec as [[Hnone _] | [_ Hpos]]; [simpl in Hnone; congruence |].
    simpl in Hpos.
    split; [| split].
    + intros Hd _. unfold notes_of. rewrite (Hdev Hd), Hc. simpl. rewrite Hs. reflexivity.
    + intros _ H0. lra.
    + intros Ho _. eexists. split; [exact Hc |]. simpl.
      unfold notes_of. rewrite (Hobs Ho), Hc. simpl. rewrite get_default. reflexivity.
Qed.

Lemma length_upto (n : nat) (s : string) :
  String.length (upto n s) = Nat.min n (String.length s).
Proof.
  unfold upto. revert s; induction n as [|n IH]; intros [|c s]; simpl; try reflexivity.
  rewrite IH. reflexivity.
Qed.

Lemma length_append (a b : string) :
  String.length (a +:+ b) = (String.length a + String.length b)%nat.
Proof.
  induction a as [|c a IH]; [reflexivity |]. rewrite append_cons. simpl. rewrite IH. reflexivity.
Qed.

Lemma upto_prefix (n : nat) (s : string) : exists rest : string, s = upto n s +:+ rest.
Proof.
  unfold upto. revert s; induction n as [|n IH]; intros [|c s]; simpl.
  - exists "". reflexivity.
  - exists (String c s). reflexivity.
  - exists "". reflexivity.
  - destruct (IH s) as [rest Hrest]. exists rest. rewrite append_cons, <- Hrest. reflexivity.
Qed.

(** X21: the step description shown in the Markdown table has at most 60
    characters: a description of at most 60 characters is shown whole, a
    longer one as its first 57 characters followed by three dots. *)
Theorem truncated_description (planned_action : string) :
  (String.length (truncated planned_action) <= 60)%nat /\
  ((String.length planned_action <= 60)%nat -> truncated planned_action = planned_action) /\
  ((60 < String.length planned_action)%nat ->
   String.length (truncated planned_action) = 60%nat /\
   exists shown rest : string,
     planned_action = shown +:+ rest /\ String.length shown = 57%nat /\
     truncated planned_action = shown +:+ "...").
Proof.
  unfold truncated.
  destruct (60 <? String.length planned_action)%nat eqn:E.
  - apply Nat.ltb_lt in E.
    assert (String.length (upto 57 planned_action) = 57%nat) as H57
      by (rewrite length_upto; lia).
    rewrite length_append, H57. simpl.
    split; [lia |]. split; [lia |]. intros _. split; [reflexivity |].
    destruct (upto_prefix 57 planned_action) as [rest Hrest].
    exists (upto 57 planned_action), rest. auto.
  - apply Nat.ltb_ge in E. split; [exact E |]. split; [reflexivity | lia].
Qed.

Lemma replace_clean (old : ascii) (new : string) (s : string) :
  all_chars (fun c => negb (Ascii.eqb c old)) new = true ->
  all_chars (fun c => negb (Ascii.eqb c old)) (replace old new s) = true.
Proof.
  intros Hnew. induction s as [|c s IH]; [reflexivity |].
  cbn [replace]. rewrite all_chars_append, IH, andb_true_r.
  destruct (Ascii.eqb c old) eqn:E; [exact Hnew |].
  simpl. rewrite E. reflexivity.
Qed.

Lemma replace_keeps (old : ascii) (new : string) (p : ascii -> bool) (s : string) :
  all_chars p new = true -> all_chars p s = true -> all_chars p (replace old new s) = true.
Proof.
  intros Hnew. induction s as [|c s IH]; [reflexivity |].
  cbn [replace all_chars]. intros H. apply andb_true_iff in H as [Hc Hs].
  rewrite all_chars_append, (IH Hs), andb_true_r.
  destruct (Ascii.eqb c old); [exact Hnew | simpl; rewrite Hc; reflexivity].
Qed.

Lemma replace_absent (old : ascii) (new : string) (s : string) :
  all_chars (fun c => negb (Ascii.eqb c old)) s = true -> replace old new s = s.
Proof.
  induction s as [|c s IH]; [reflexivity |].
  cbn [replace all_chars]. intros H. apply andb_true_iff in H as [Hc Hs].
  apply negb_true_iff in Hc. rewrite Hc, (IH Hs). reflexivity.
Qed.

(** X22: a text escaped for the HTML report holds neither [<] nor [>], and
    a text without them is left as it is. *)
Theorem escape_removes_angle_brackets (text : string) :
  all_chars (fun c => negb (Ascii.eqb c "<") && negb (Ascii.eqb c ">")) (escape text) = true /\
  (all_chars (fun c => negb (Ascii.eqb c "<") && negb (Ascii.eqb c ">")) text = true ->
   escape text = text).
Proof.
  unfold escape. split.
  - assert (all_chars (fun c => negb (Ascii.eqb c "<")) (replace "<" "&lt;" text) = true)
      as Hlt by (apply replace_clean; reflexivity).
    assert (all_chars (fun c => negb (Ascii.eqb c "<"))
              (replace ">" "&gt;" (replace "<" "&lt;" text)) = true) as Hlt'
      by (apply replace_keeps; [reflexivity | exact Hlt]).
    assert (all_chars (fun c => negb (Ascii.eqb c ">"))
              (replace ">" "&gt;" (replace "<" "&lt;" text)) = true) as Hgt
      by (apply replace_clean; reflexivity).
    revert Hlt' Hgt.
    generalize (replace ">" "&gt;" (replace "<" "&lt;" text)).
    induction s as [|c s IH]; [reflexivity |]. simpl.
    intros H1 H2. apply andb_true_iff in H1 as [-> H1]. apply andb_true_iff in H2 as [-> H2].
    simpl. apply IH; assumption.
  - intros H.
    assert (all_chars (fun c => negb (Ascii.eqb c "<")) text = true) as Hlt.
    { eapply all_chars_impl; [| exact H]. intros c Hc.
      apply andb_true_iff in Hc as [Hc _]. exact Hc. }
    assert (all_chars (fun c => negb (Ascii.eqb c ">")) text = true) as Hgt.
    { eapply all_chars_impl; [| exact H]. intros c Hc.
      apply andb_true_iff in Hc as [_ Hc]. exact Hc. }
    rewrite (replace_absent "<" _ _ Hlt), (replace_absent ">" _ _ Hgt). reflexivity.
Qed.

Lemma filter_partition_length {A : Type} (p : A -> bool) (l : list A) :
  (length (List.filter p l) + length (List.filter (fun x => negb (p x)) l) = length l)%nat.
Proof.
  induction l as [|x l IH]; [reflexivity |]. simpl.
  destruct (p x); simpl; lia.
Qed.

(** X23: in the summary of a report on a batch of match results, the
    observed steps and the deviations add up to the number of steps; the
    [Deviations] count is the number of entries of the deviation detail,
    the observed results are those whose best score reaches the threshold,
    and every deviation has a best score below the threshold. *)
Theorem report_counts_of_a_batch (steps : list Step.t) (timeline : list Item.t)
    (threshold : Q) :
  exists rs : list Result.t,
    match_all_steps steps timeline threshold = Returned rs /\
    (observed_count rs + length (deviations rs) = length steps)%nat /\
    (length rs - observed_count rs = length (deviations rs))%nat /\
    observed_count rs
      = length (List.filter (fun r => Float.geb (Result.best_score r) threshold) rs) /\
    Forall (fun r => Result.best_score r < threshold) (deviations rs).
Proof.
  destruct (match_all_steps_returns steps timeline threshold) as (rs & Hrun & Hall).
  exists rs. split; [exact Hrun |].
  pose proof (filter_partition_length
                (fun r => String.eqb (Result.result r) "observed") rs) as Hpart.
  rewrite (List.Forall2_length Hall).
  split; [exact Hpart |].
  split; [unfold observed_count, deviations; cbv beta in Hpart; lia |].
  assert (Forall (fun r => String.eqb (Result.result r) "observed"
                           = Float.geb (Result.best_score r) threshold) rs) as Hres.
  { clear Hrun Hpart. induction Hall as [|step r ss rr Hr _ IH]; constructor; [| exact IH].
    destruct (match_step_returns step timeline threshold)
      as (r' & Hr' & _ & _ & Hm & Hres & _).
    rewrite Hr in Hr'. injection Hr' as <-.
    rewrite Hres, Hm. destruct (Float.geb _ _); reflexivity. }
  clear Hrun Hall Hpart. unfold observed_count, deviations.
  induction Hres as [|r rs Hr _ [IHo IHd]]; [split; [reflexivity | constructor] |].
  simpl. rewrite Hr. destruct (Float.geb (Result.best_score r) threshold) eqn:E; simpl.
  - split; [f_equal; exact IHo | exact IHd].
  - split; [exact IHo |]. constructor; [| exact IHd].
    apply not_true_iff_false in E. rewrite geb_spec in E. apply Qnot_le_lt, E.
Qed.

(** ** The merge of video timelines *)

Lemma sort_key_loop_returns (l : list VideoFrame.t) (keyed : list (Q * VideoFrame.t)) :
  Forall (fun x => VideoFrame.timestamp x <> None) l ->
  exists keyed' : list (Q * VideoFrame.t),
    for_each sort_key l keyed = Returned (keyed ++ keyed') /\
    map snd keyed' = l /\
    Forall (fun p => VideoFrame.timestamp (snd p) = Some (fst p)) keyed'.
Proof.
  revert keyed; induction l as [|x l IH]; intros keyed Hl.
  - exists []. rewrite app_nil_r. repeat split; constructor.
  - apply Forall_cons_iff in Hl as [Hx Hl].
    cbn [for_each].
    destruct (VideoFrame.timestamp x) as [t |] eqn:E; [| contradiction].
    assert (sort_key keyed x = Returned (keyed ++ [(t, x)])) as ->
      by (unfold sort_key; rewrite E; reflexivity).
    cbn [mbind outcome_bind].
    destruct (IH (keyed ++ [(t, x)]) Hl) as (keyed' & Hrun & Hsnd & Hkeys).
    exists ((t, x) :: keyed'). split; [rewrite Hrun, <- app_assoc; reflexivity |].
    split; [simpl; rewrite Hsnd; reflexivity |].
    constructor; [exact E | exact Hkeys].
Qed.

Lemma sort_key_loop_raises (l : list VideoFrame.t) (keyed : list (Q * VideoFrame.t)) :
  Exists (fun x => VideoFrame.timestamp x = None) l ->
  for_each sort_key l keyed = Raised "KeyError".
Proof.
  revert keyed; induction l as [|x l IH]; intros keyed Hl; [inversion Hl |].
  cbn [for_each].
  destruct (VideoFrame.timestamp x) as [t |] eqn:E.
  - assert (sort_key keyed x = Returned (keyed ++ [(t, x)])) as ->
      by (unfold sort_key; rewrite E; reflexivity).
    cbn [mbind outcome_bind]. apply IH.
    apply Exists_cons in Hl as [Hx | Hl]; [congruence | exact Hl].
  - assert (sort_key keyed x = Raised "KeyError") as ->
      by (unfold sort_key; rewrite E; reflexivity).
    reflexivity.
Qed.


Lemma insert_by_key_perm (entry : Q * VideoFrame.t) (sorted : list (Q * VideoFrame.t)) :
  Permutation (insert_by_key entry sorted) (entry :: sorted).
Proof.
  induction sorted as [|other sorted IH]; simpl; [reflexivity |].
  destruct (Float.ltb (fst other) (fst entry)); [| reflexivity].
  rewrite IH. apply perm_swap.
Qed.

Lemma sort_by_key_perm (keyed : list (Q * VideoFrame.t)) :
  Permutation (sort_by_key keyed) keyed.
Proof.
  induction keyed as [|entry keyed IH]; simpl; [reflexivity |].
  rewrite insert_by_key_perm, IH. reflexivity.
Qed.

Lemma insert_by_key_sorted (entry : Q * VideoFrame.t) (sorted : list (Q * VideoFrame.t)) :
  StronglySorted (fun a b => fst a <= fst b) sorted ->
  StronglySorted (fun a b => fst a <= fst b) (insert_by_key entry sorted).
Proof.
  induction 1 as [|other sorted Hsorted IH Hall]; simpl.
  - constructor; constructor.
  - destruct (Float.ltb (fst other) (fst entry)) eqn:E.
    + apply ltb_spec in E. constructor; [exact IH |].
      eapply Permutation_Forall; [symmetry; apply insert_by_key_perm |].
      constructor; [lra | exact Hall].
    + apply not_true_iff_false in E. rewrite ltb_spec in E. apply Qnot_lt_le in E.
      constructor; [constructor; assumption |].
      constructor; [exact E |].
      eapply List.Forall_impl; [| exact Hall]. simpl. intros a Ha. lra.
Qed.

Lemma sort_by_key_sorted (keyed : list (Q * VideoFrame.t)) :
  StronglySorted (fun a b => fst a <= fst b) (sort_by_key keyed).
Proof.
  induction keyed as [|entry keyed IH]; simpl; [constructor |].
  apply insert_by_key_sorted, IH.
Qed.

Lemma insert_by_key_stable (t : Q) (entry : Q * VideoFrame.t)
    (sorted : list (Q * VideoFrame.t)) :
  List.filter (fun p => Qeq_bool (fst p) t) (insert_by_key entry sorted)
  = List.filter (fun p => Qeq_bool (fst p) t) (entry :: sorted).
Proof.
  induction sorted as [|other sorted IH]; [reflexivity |].
  cbn [insert_by_key].
  destruct (Float.ltb (fst other) (fst entry)) eqn:E; [| reflexivity].
  apply ltb_spec in E.
  cbn [List.filter] in *. rewrite IH.
  destruct (Qeq_bool (fst other) t) eqn:Eo; destruct (Qeq_bool (fst entry) t) eqn:Ee;
    try reflexivity.
  apply Qeq_bool_iff in Eo. apply Qeq_bool_iff in Ee. lra.
Qed.

Lemma sort_by_key_stable (t : Q) (keyed : list (Q * VideoFrame.t)) :
  List.filter (fun p => Qeq_bool (fst p) t) (sort_by_key keyed)
  = List.filter (fun p => Qeq_bool (fst p) t) keyed.
Proof.
  induction keyed as [|entry keyed IH]; [reflexivity |].
  cbn [sort_by_key fold_right]. fold (sort_by_key keyed).
  rewrite insert_by_key_stable. cbn [List.filter]. rewrite IH. reflexivity.
Qed.

Lemma tagged_frames_spec (video_frames : list (string * list VideoFrame.t))
    (x : VideoFrame.t) :
  In x (tagged_frames video_frames) <->
  exists (video_path : string) (frames : list VideoFrame.t) (frame : VideoFrame.t),
    In (video_path, frames) video_frames /\ In frame frames /\
    x = with_source video_path frame.
Proof.
  unfold tagged_frames. rewrite in_flat_map. split.
  - intros ([path frames] & Hin & Hx). apply in_map_iff in Hx as (frame & <- & Hframe).
    exists path, frames, frame. auto.
  - intros (path & frames & frame & Hin & Hframe & ->).
    exists (path, frames). split; [exact Hin | apply in_map, Hframe].
Qed.

(** X24: the merge raises a [KeyError] as soon as one frame of one video
    has no timestamp, and returns when every frame has one. *)
Theorem merge_video_timelines_needs_timestamps
    (video_frames : list (string * list VideoFrame.t)) :
  ((exists (video_path : string) (frames : list VideoFrame.t) (frame : VideoFrame.t),
      In (video_path, frames) video_frames /\ In frame frames /\
      VideoFrame.timestamp frame = None) ->
   merge_video_timelines video_frames = Raised "KeyError") /\
  ((forall (video_path : string) (frames : list VideoFrame.t) (frame : VideoFrame.t),
      In (video_path, frames) video_frames -> In frame frames ->
      VideoFrame.timestamp frame <> None) ->
   exists unified_timeline : list VideoFrame.t,
     merge_video_timelines video_frames = Returned unified_timeline).
Proof.
  unfold merge_video_timelines. fold (tagged_frames video_frames). split.
  - intros (path & frames & frame & Hin & Hframe & Hnone).
    rewrite sort_key_loop_raises; [reflexivity |].
    apply List.Exists_exists. exists (with_source path frame).
    split; [| exact Hnone].
    apply tagged_frames_spec. exists path, frames, frame. auto.
  - intros Hall.
    destruct (sort_key_loop_returns (tagged_frames video_frames) []) as (keyed & -> & _).
    + apply List.Forall_forall. intros x Hx.
      apply tagged_frames_spec in Hx as (path & frames & frame & Hin & Hframe & ->).
      apply (Hall path frames frame Hin Hframe).
    + eexists. reflexivity.
Qed.

Lemma merge_video_timelines_witness_input :
  forall (video_path : string) (frames : list VideoFrame.t) (frame : VideoFrame.t),
    In (video_path, frames) Sample.two_videos -> In frame frames ->
    VideoFrame.timestamp frame <> None.
Proof.
  intros path frames frame Hin Hframe. simpl in Hin.
  destruct Hin as [H | [H | []]]; injection H as <- <-;
    destruct Hframe as [<- | [<- | []]]; discriminate.
Defined.

(** The two sample videos merge. *)
Lemma merge_video_timelines_needs_timestamps_witness :
  exists unified_timeline : list VideoFrame.t,
    merge_video_timelines Sample.two_videos = Returned unified_timeline.
Proof.
  apply (merge_video_timelines_needs_timestamps Sample.two_videos).
  apply merge_video_timelines_witness_input.
Defined.

Lemma merge_video_timelines_returns (video_frames : list (string * list VideoFrame.t))
    (unified_timeline : list VideoFrame.t) :
  merge_video_timelines video_frames = Returned unified_timeline ->
  exists keyed : list (Q * VideoFrame.t),
    unified_timeline = map snd (sort_by_key keyed) /\
    map snd keyed = tagged_frames video_frames /\
    Forall (fun p => VideoFrame.timestamp (snd p) = Some (fst p)) keyed.
Proof.
  unfold merge_video_timelines. fold (tagged_frames video_frames). intros Hrun.
  assert (forall x : VideoFrame.t,
            {VideoFrame.timestamp x = None} + {VideoFrame.timestamp x <> None}) as Hdec.
  { intros x. destruct (VideoFrame.timestamp x); [right; discriminate | left; reflexivity]. }
  destruct (List.Exists_dec (fun x => VideoFrame.timestamp x = None)
              (tagged_frames video_frames) Hdec) as [Hex | Hnex].
  - rewrite sort_key_loop_raises in Hrun by exact Hex. discriminate.
  - destruct (sort_key_loop_returns (tagged_frames video_frames) [])
      as (keyed & Hkeyed & Hsnd & Hkeys).
    + apply List.Forall_forall. intros x Hx Hnone. apply Hnex.
      apply List.Exists_exists. exists x. auto.
    + rewrite Hkeyed in Hrun. simpl in Hrun. injection Hrun as <-.
      exists keyed. auto.
Qed.

Lemma sorted_keys_sorted_frames (l : list (Q * VideoFrame.t)) :
  Forall (fun p => VideoFrame.timestamp (snd p) = Some (fst p)) l ->
  StronglySorted (fun a b => fst a <= fst b) l ->
  StronglySorted not_later (map snd l).
Proof.
  intros Hkeys Hsorted.
  induction Hsorted as [|p l Hsorted IH Hall]; [constructor |].
  apply Forall_cons_iff in Hkeys as [Hp Hl].
  simpl. constructor; [apply IH, Hl |].
  apply List.Forall_forall. intros x Hx.
  apply in_map_iff in Hx as (q & <- & Hq).
  rewrite List.Forall_forall in Hall, Hl.
  exists (fst p), (fst q). split; [exact Hp |]. split; [apply Hl, Hq | apply Hall, Hq].
Qed.

(** X25: when the merge returns, the unified timeline holds exactly the
    frames of all videos, each with its source video and otherwise
    unchanged, ordered by timestamp from the earliest to the latest. *)
Theorem merge_video_timelines_sorts (video_frames : list (string * list VideoFrame.t))
    (unified_timeline : list VideoFrame.t) :
  merge_video_timelines video_frames = Returned unified_timeline ->
  Permutation unified_timeline (tagged_frames video_frames) /\
  StronglySorted not_later unified_timeline /\
  (forall x : VideoFrame.t,
     In x unified_timeline <->
     exists (video_path : string) (frames : list VideoFrame.t) (frame : VideoFrame.t),
       In (video_path, frames) video_frames /\ In frame frames /\
       x = with_source video_path frame).
Proof.
  intros Hrun.
  destruct (merge_video_timelines_returns _ _ Hrun) as (keyed & -> & Hsnd & Hkeys).
  assert (Permutation (map snd (sort_by_key keyed)) (tagged_frames video_frames)) as Hperm.
  { rewrite <- Hsnd. apply Permutation_map, sort_by_key_perm. }
  split; [exact Hperm |]. split.
  - apply sorted_keys_sorted_frames; [| apply sort_by_key_sorted].
    eapply Permutation_Forall; [symmetry; apply sort_by_key_perm | exact Hkeys].
  - intros x. rewrite <- tagged_frames_spec. split; intros Hx.
    + eapply Permutation_in; [exact Hperm | exact Hx].
    + eapply Permutation_in; [symmetry; exact Hperm | exact Hx].
Qed.

(** The two sample videos merge into the frames at 0s, 1s, 2s and 2s. *)
Lemma merge_video_timelines_sorts_witness :
  StronglySorted not_later
    [with_source "a.mp4" (Sample.video_frame 0 0);
     with_source "b.mp4" (Sample.video_frame 25 1);
     with_source "a.mp4" (Sample.video_frame 60 2);
     with_source "b.mp4" (Sample.video_frame 50 2)].
Proof.
  apply (merge_video_timelines_sorts Sample.two_videos). reflexivity.
Defined.

(** X26: the merge is stable: frames with equal timestamps stay in the
    order in which the videos and their frames were given. *)
Theorem merge_video_timelines_is_stable (video_frames : list (string * list VideoFrame.t))
    (unified_timeline : list VideoFrame.t) (t : Q) :
  merge_video_timelines video_frames = Returned unified_timeline ->
  List.filter (at_time t) unified_timeline
  = List.filter (at_time t) (tagged_frames video_frames).
Proof.
  intros Hrun.
  destruct (merge_video_timelines_returns _ _ Hrun) as (keyed & -> & Hsnd & Hkeys).
  rewrite <- Hsnd.
  assert (forall l : list (Q * VideoFrame.t),
            Forall (fun p => VideoFrame.timestamp (snd p) = Some (fst p)) l ->
            List.filter (at_time t) (map snd l)
            = map snd (List.filter (fun p => Qeq_bool (fst p) t) l)) as Hfilter.
  { induction 1 as [|p l Hp _ IH]; [reflexivity |].
    simpl. unfold at_time at 1. rewrite Hp.
    destruct (Qeq_bool (fst p) t); simpl; rewrite IH; reflexivity. }
  rewrite !Hfilter, sort_by_key_stable; [reflexivity | exact Hkeys |].
  eapply Permutation_Forall; [symmetry; apply sort_by_key_perm | exact Hkeys].
Qed.

(** Of the two sample frames at 2s, the one of the first video comes
    first. *)
Lemma merge_video_timelines_is_stable_witness :
  List.filter (at_time 2)
    [with_source "a.mp4" (Sample.video_frame 0 0);
     with_source "b.mp4" (Sample.video_frame 25 1);
     with_source "a.mp4" (Sample.video_frame 60 2);
     with_source "b.mp4" (Sample.video_frame 50 2)]
  = [with_source "a.mp4" (Sample.video_frame 60 2);
     with_source "b.mp4" (Sample.video_frame 50 2)].
Proof.
  apply (merge_video_timelines_is_stable Sample.two_videos _ 2). reflexivity.
Defined.
